(** * bloop client: the chat transcript view and the code-annotation renderer

    A shallow embedding of two React components of the bloop client,

    - [CodeRenderer] (client/src/components/MarkdownWithCode/CodeRenderer.tsx),
      which decodes the class string of a rendered code element and picks
      what to render, and
    - [Conversation] (the chat transcript view), which projects every turn
      of a transcript to the props of a [Message] and keeps the scroll-follow
      flag,

    together with the part of the JavaScript runtime they rely on: strings
    as sequences of UTF-16 code units, the backtracking semantics of the
    regular expressions that occur in the source, [String.prototype.split],
    [Number(...)] on strings and number-to-string conversion. *)

From Stdlib Require Import Strings.String Strings.Ascii Numbers.DecimalString.
From Stdlib Require Import List Bool Arith ZArith NArith QArith Lia.
Import ListNotations.

Set Implicit Arguments.
Local Close Scope Q_scope.

(* ================================================================== *)
(** * The JavaScript runtime used by the components *)
(* ================================================================== *)

Module JS.

(** ** Strings *)

(** A JavaScript string is a sequence of UTF-16 code units. *)
Definition char := N.
Bind Scope N_scope with char.
Definition jsstring := list char.

(** The JavaScript string written by an ASCII literal. *)
Definition js (s : string) : jsstring :=
  map N_of_ascii (list_ascii_of_string s).

Definition char_eqb (a b : char) : bool := N.eqb a b.

Fixpoint jsstring_eqb (a b : jsstring) : bool :=
  match a, b with
  | [], [] => true
  | x :: a', y :: b' => char_eqb x y && jsstring_eqb a' b'
  | _, _ => false
  end.

Definition in_range (lo hi c : char) : bool := (N.leb lo c && N.leb c hi)%bool.

(** [\w] : [[A-Za-z0-9_]]. *)
Definition word (c : char) : bool :=
  in_range 65 90 c || in_range 97 122 c || in_range 48 57 c || N.eqb c 95.

(** Line terminators: LF, CR, LS, PS. *)
Definition line_terminator (c : char) : bool :=
  N.eqb c 10 || N.eqb c 13 || N.eqb c 8232 || N.eqb c 8233.

(** [.] (without the [s] flag): any code unit but a line terminator. *)
Definition dot (c : char) : bool := negb (line_terminator c).

(** [[0-9A-F]]. *)
Definition hex_upper (c : char) : bool := in_range 48 57 c || in_range 65 70 c.

(** [Canonicalize] of a regular expression with the [i] flag and without
    the [u] flag: the upper-case mapping.  A code unit above 127 is never
    mapped to an ASCII one, so for the ASCII classes of this file only the
    mapping of [a]..[z] matters. *)
Definition Canonicalize (c : char) : char :=
  if in_range 97 122 c then (c - 32)%N else c.

(** A character class under the [i] flag.  The classes it is applied to
    are closed under [Canonicalize]. *)
Definition ignore_case (p : char -> bool) (c : char) : bool := p (Canonicalize c).

Definition comma : char := 44.
Definition dash : char := 45.

(** Truthiness of a possibly undefined string: [undefined] and [''] are
    falsy. *)
Definition truthy_string (v : option jsstring) : bool :=
  match v with
  | Some (_ :: _) => true
  | _ => false
  end.

(** [v || d] for a possibly undefined string [v] and a string [d]. *)
Definition or_string (v : option jsstring) (d : jsstring) : jsstring :=
  match v with
  | Some (c :: s) => c :: s
  | _ => d
  end.

(** ** Regular expressions

    The fragment of the pattern language that the source uses: literal
    characters, a greedy [+] and a counted repetition of a character
    class, the assertions [^] and [$] (no [m] flag), sequence, alternation
    and numbered capture groups. *)

Inductive regex : Type :=
| Lit (l : jsstring)
| Plus (p : char -> bool)
| Rep (n : nat) (p : char -> bool)
| Bol
| Eol
| Seq (r1 r2 : regex)
| Alt (r1 r2 : regex)
| Group (i : nat) (r : regex).

(** The state of the backtracking matcher: the index of the next code
    unit, the input from there on, and the captures made so far. *)
Record mstate : Type := MState {
  pos : nat;
  rest : jsstring;
  caps : list (nat * jsstring)
}.

Definition cont := mstate -> option mstate.

(** [strip l s] removes the prefix [l] from [s]. *)
Fixpoint strip (l s : jsstring) : option jsstring :=
  match l, s with
  | [], _ => Some s
  | a :: l', b :: s' => if char_eqb a b then strip l' s' else None
  | _ :: _, [] => None
  end.

(** Greedy [p*] followed by the continuation [k]: take one more code unit
    when possible, fall back to stopping here when the rest fails. *)
Fixpoint star (p : char -> bool) (s : jsstring) (n : nat)
         (cs : list (nat * jsstring)) (k : cont) : option mstate :=
  match s with
  | c :: s' =>
      if p c then
        match star p s' (S n) cs k with
        | Some y => Some y
        | None => k (MState n s cs)
        end
      else k (MState n s cs)
  | [] => k (MState n s cs)
  end.

(** [p{m}] followed by [k]. *)
Fixpoint rep (m : nat) (p : char -> bool) (s : jsstring) (n : nat)
         (cs : list (nat * jsstring)) (k : cont) : option mstate :=
  match m with
  | O => k (MState n s cs)
  | S m' =>
      match s with
      | c :: s' => if p c then rep m' p s' (S n) cs k else None
      | [] => None
      end
  end.

(** The matcher, in continuation-passing style: [rmatch r x k] matches [r]
    at [x] and then [k]; alternatives are tried in order, so the first
    success is the one a backtracking engine finds. *)
Fixpoint rmatch (r : regex) (x : mstate) (k : cont) : option mstate :=
  match r with
  | Lit l =>
      match strip l (rest x) with
      | Some s' => k (MState (pos x + length l) s' (caps x))
      | None => None
      end
  | Plus p =>
      match rest x with
      | c :: s' => if p c then star p s' (S (pos x)) (caps x) k else None
      | [] => None
      end
  | Rep m p => rep m p (rest x) (pos x) (caps x) k
  | Bol => if Nat.eqb (pos x) 0 then k x else None
  | Eol => match rest x with [] => k x | _ :: _ => None end
  | Seq r1 r2 => rmatch r1 x (fun y => rmatch r2 y k)
  | Alt r1 r2 =>
      match rmatch r1 x k with
      | Some y => Some y
      | None => rmatch r2 x k
      end
  | Group i r1 =>
      rmatch r1 x
        (fun y => k (MState (pos y) (rest y)
                       ((i, firstn (pos y - pos x) (rest x)) :: caps y)))
  end.

(** The result of a successful [exec]: where the match starts and ends,
    and its captures. *)
Record match_result : Type := Match {
  index : nat;
  last : nat;
  groups : list (nat * jsstring)
}.

(** The match of [r] that starts at index [n], where the input from [n]
    on is [s]. *)
Definition match_at (r : regex) (n : nat) (s : jsstring) : option mstate :=
  rmatch r (MState n s []) (fun y => Some y).

(** [RegExp.prototype.exec] for a pattern without the [g] and [y] flags: the
    match at the leftmost index that has one; [None] is [null]. *)
Fixpoint exec_at (r : regex) (n : nat) (s : jsstring) : option match_result :=
  match match_at r n s with
  | Some y => Some (Match n (pos y) (caps y))
  | None =>
      match s with
      | [] => None
      | _ :: s' => exec_at r (S n) s'
      end
  end.

Definition exec (r : regex) (s : jsstring) : option match_result := exec_at r 0 s.

(** [RegExp.prototype.test]. *)
Definition test (r : regex) (s : jsstring) : bool :=
  match exec r s with Some _ => true | None => false end.

Fixpoint assoc (i : nat) (cs : list (nat * jsstring)) : option jsstring :=
  match cs with
  | [] => None
  | (j, v) :: cs' => if Nat.eqb i j then Some v else assoc i cs'
  end.

(** [m?.[i]] for the result [m] of an [exec]. *)
Definition group (i : nat) (m : option match_result) : option jsstring :=
  match m with
  | Some r => assoc i (groups r)
  | None => None
  end.

(** [s.replace(r, by)] for a pattern without the [g] flag and a replacement
    without [$] patterns: the first match is replaced. *)
Definition replace (r : regex) (by_ : jsstring) (s : jsstring) : jsstring :=
  match exec r s with
  | Some m => firstn (index m) s ++ by_ ++ skipn (last m) s
  | None => s
  end.

(** [s.split(sep)] for a separator of one code unit. *)
Fixpoint split (sep : char) (s : jsstring) : list jsstring :=
  match s with
  | [] => [[]]
  | c :: s' =>
      if char_eqb c sep then [] :: split sep s'
      else
        match split sep s' with
        | h :: t => (c :: h) :: t
        | [] => [[c]]
        end
  end.

(** ** Results of a computation

    [Throws]: the JavaScript code throws.  [Beyond]: the computation needs
    a double that is neither [NaN] nor a safe integer; such doubles are
    outside the numbers of this model (see [number]). *)

Inductive res (A : Type) : Type :=
| Val (a : A)
| Throws
| Beyond.

Arguments Val {A} a.
Arguments Throws {A}.
Arguments Beyond {A}.

Definition bind {A B : Type} (m : res A) (f : A -> res B) : res B :=
  match m with
  | Val a => f a
  | Throws => Throws
  | Beyond => Beyond
  end.

Notation "x <- m ;; f" := (bind m (fun x => f))
  (at level 61, m at next level, right associativity).

Fixpoint mapM {A B : Type} (f : A -> res B) (l : list A) : res (list B) :=
  match l with
  | [] => Val []
  | a :: l' => b <- f a ;; bs <- mapM f l' ;; Val (b :: bs)
  end.

(** ** Numbers

    The numbers a line bound takes: [NaN] and the safe integers (those of
    absolute value below 2^53), on which the arithmetic of doubles is the
    arithmetic of integers.  Negative zero is not told apart from zero:
    subtraction of one, truthiness and conversion to a string do not tell
    them apart either. *)

Inductive number : Type :=
| NaN
| Int (z : Z).

Definition safe (z : Z) : bool := (Z.abs z <? 2 ^ 53)%Z.

(** [a - b], exact when the operands and the result are safe. *)
Definition sub (a b : number) : number :=
  match a, b with
  | Int x, Int y => Int (x - y)
  | _, _ => NaN
  end.

(** [ToNumber] of a possibly undefined number: [undefined] becomes [NaN]. *)
Definition ToNumber (v : option number) : number :=
  match v with
  | Some n => n
  | None => NaN
  end.

(** Truthiness of a possibly undefined number: [undefined], [NaN] and
    zero are falsy. *)
Definition truthy_number (v : option number) : bool :=
  match v with
  | Some (Int z) => negb (z =? 0)%Z
  | _ => false
  end.

(** [a ?? b]. *)
Definition nullish {A : Type} (a b : option A) : option A :=
  match a with
  | Some x => Some x
  | None => b
  end.

(** [Number.prototype.toString], as a template literal applies it. *)
Definition toString (n : number) : jsstring :=
  match n with
  | NaN => js "NaN"
  | Int z => js (NilEmpty.string_of_int (Z.to_int z))
  end.

(** *** [Number(s)] for a string [s] (StringToNumber) *)

(** WhiteSpace and LineTerminator code units. *)
Definition white_space (c : char) : bool :=
  existsb (N.eqb c)
    [9; 10; 11; 12; 13; 32; 160; 5760; 8232; 8233; 8239; 8287; 12288; 65279]%N
  || in_range 8192 8202 c.

Fixpoint drop_while (p : char -> bool) (s : jsstring) : jsstring :=
  match s with
  | c :: s' => if p c then drop_while p s' else s
  | [] => []
  end.

Definition trim (s : jsstring) : jsstring :=
  rev (drop_while white_space (rev (drop_while white_space s))).

(** The longest prefix of [s] in the class [p], and what follows it. *)
Fixpoint span (p : char -> bool) (s : jsstring) : jsstring * jsstring :=
  match s with
  | c :: s' =>
      if p c then let (a, b) := span p s' in (c :: a, b) else ([], s)
  | [] => ([], [])
  end.

Definition digit (c : char) : bool := in_range 48 57 c.
Definition hex_digit (c : char) : bool :=
  in_range 48 57 c || in_range 65 70 c || in_range 97 102 c.
Definition octal_digit (c : char) : bool := in_range 48 55 c.
Definition binary_digit (c : char) : bool := in_range 48 49 c.

Definition digit_value (c : char) : Z :=
  if in_range 48 57 c then Z.of_N (c - 48)
  else if in_range 97 102 c then Z.of_N (c - 87)
  else Z.of_N (c - 55).

Definition digits_value (radix : Z) (ds : jsstring) : Z :=
  fold_left (fun a c => radix * a + digit_value c)%Z ds 0%Z.

(** The mathematical value of a numeric literal: infinite, or
    [mant * 10 ^ exp]. *)
Inductive literal : Type :=
| Infinite
| Decimal (mant exp : Z).

(** [ExponentPart], optional, up to the end of the literal. *)
Definition exponent_part (s : jsstring) : option Z :=
  match s with
  | [] => Some 0%Z
  | e :: s1 =>
      if N.eqb e 101 || N.eqb e 69 then
        let '(neg, s2) :=
          match s1 with
          | c :: s2 =>
              if N.eqb c 45 then (true, s2)
              else if N.eqb c 43 then (false, s2)
              else (false, s1)
          | [] => (false, s1)
          end in
        let '(ds, s3) := span digit s2 in
        match ds, s3 with
        | _ :: _, [] =>
            Some (if neg then - digits_value 10 ds else digits_value 10 ds)%Z
        | _, _ => None
        end
      else None
  end.

(** [StrUnsignedDecimalLiteral]. *)
Definition unsigned_decimal (s : jsstring) : option literal :=
  if jsstring_eqb s (js "Infinity") then Some Infinite
  else
    let '(ip, s1) := span digit s in
    let '(fp, s2) :=
      match s1 with
      | c :: s1' => if N.eqb c 46 then span digit s1' else ([], s1)
      | [] => ([], s1)
      end in
    match ip ++ fp with
    | [] => None
    | ds =>
        match exponent_part s2 with
        | Some e => Some (Decimal (digits_value 10 ds) (e - Z.of_nat (length fp)))
        | None => None
        end
    end.

(** [NonDecimalIntegerLiteral]: [0x], [0o] and [0b] literals. *)
Definition non_decimal (s : jsstring) : option literal :=
  match s with
  | z :: x :: ds =>
      let radix :=
        if N.eqb x 120 || N.eqb x 88 then Some (16%Z, hex_digit)
        else if N.eqb x 111 || N.eqb x 79 then Some (8%Z, octal_digit)
        else if N.eqb x 98 || N.eqb x 66 then Some (2%Z, binary_digit)
        else None in
      match radix, ds with
      | Some (r, p), _ :: _ =>
          if N.eqb z 48 && forallb p ds then Some (Decimal (digits_value r ds) 0)
          else None
      | _, _ => None
      end
  | _ => None
  end.

Definition negate (l : literal) : literal :=
  match l with
  | Infinite => Infinite
  | Decimal m e => Decimal (- m) e
  end.

(** [StrNumericLiteral]: a decimal literal with an optional sign, or a
    non-decimal integer literal. *)
Definition numeric_literal (s : jsstring) : option literal :=
  match non_decimal s with
  | Some l => Some l
  | None =>
      match s with
      | c :: s' =>
          if N.eqb c 43 then unsigned_decimal s'
          else if N.eqb c 45 then option_map negate (unsigned_decimal s')
          else unsigned_decimal s
      | [] => None
      end
  end.

(** The integer a literal denotes, when it denotes one. *)
Definition integer_of (l : literal) : option Z :=
  match l with
  | Infinite => None
  | Decimal m e =>
      if (m =? 0)%Z then Some 0%Z
      else if (0 <=? e)%Z then Some (m * 10 ^ e)%Z
      else if (m mod 10 ^ (- e) =? 0)%Z then Some (m / 10 ^ (- e))%Z
      else None
  end.

(** [Number(s)]: white space is trimmed; the empty string is zero; a
    string that is not a numeric literal is [NaN]; a literal of a safe
    integer is that integer.  The other literals denote doubles beyond the
    model. *)
Definition Number (s : jsstring) : res number :=
  match trim s with
  | [] => Val (Int 0)
  | t =>
      match numeric_literal t with
      | None => Val NaN
      | Some l =>
          match integer_of l with
          | Some z => if safe z then Val (Int z) else Beyond
          | None => Beyond
          end
      end
  end.

End JS.

(* ================================================================== *)
(** * CodeRenderer.tsx: the annotation decoder *)
(* ================================================================== *)

Module CodeRenderer.
Import JS.

(** A child of the code element: a string, or any other React node.  Only
    [typeof children[0] === 'string'] and the string itself are looked
    at. *)
Inductive ReactNode : Type :=
| Text (s : jsstring)
| Node.

(** The props the component computes with.  The refs and callbacks it
    only hands on ([fileChips], [setFileHighlights], [setHoveredLines],
    [openFileModal]) are left out; [updateScrollToIndex] appears as the
    event a call of it causes. *)
Record Props : Type := {
  children : list ReactNode;
  repoName : jsstring;
  hideCode : option bool;
  className : option jsstring;
  propsJSON : jsstring;
  inline : option bool
}.

(** What the parent observes when a callback prop is called. *)
Inductive event : Type :=
| updateScrollToIndex (lines : jsstring).

(** Truthiness of an optional boolean prop. *)
Definition truthy (b : option bool) : bool :=
  match b with
  | Some true => true
  | _ => false
  end.

(** [className || '']. *)
Definition class_string (p : Props) : jsstring := or_string (className p) [].

(** A tag pattern [/l(p+)/]: the literal [l], then a greedy non-empty run
    of the class [p], captured as group 1. *)
Definition tag (l : jsstring) (p : char -> bool) : regex :=
  Seq (Lit l) (Group 1 (Plus p)).

(** [/lang:(\w+)/] *)
Definition re_lang : regex := tag (js "lang:") word.
(** [/language-(\w+)/] *)
Definition re_language : regex := tag (js "language-") word.
(** [/language-type:(\w+)/] *)
Definition re_type : regex := tag (js "language-type:") word.
(** A delimited pattern [/l(p+)d/]: the literal [l], a greedy non-empty
    run of the class [p], captured as group 1, and the character [d]. *)
Definition delimited (l : jsstring) (p : char -> bool) (d : char) : regex :=
  Seq (Lit l) (Seq (Group 1 (Plus p)) (Lit [d])).

(** What the matcher does after the run of a [delimited] pattern, in a
    match that starts at [n] and whose group starts with [c :: s']: the
    run is captured and the delimiter matched. *)
Definition after_run (l : jsstring) (d : char) (n : nat) (c : char)
           (s' : jsstring) : cont :=
  fun y =>
    rmatch (Lit [d])
      (MState (pos y) (rest y)
         ((1, firstn (pos y - (n + length l)) (c :: s')) :: caps y))
      (fun z => Some z).

(** [/path:(.+),/] *)
Definition re_path : regex := delimited (js "path:") dot comma.
(** [/lines:(.+)/] *)
Definition re_lines : regex := tag (js "lines:") dot.
(** [/\n$/] *)
Definition re_final_newline : regex := Seq (Lit [10%N]) Eol.
(** [/(^#[0-9A-F]{6}$)|(^#[0-9A-F]{3}$)/i] *)
Definition re_color : regex :=
  Alt (Group 1 (Seq Bol (Seq (Lit (js "#")) (Seq (Rep 6 (ignore_case hex_upper)) Eol))))
      (Group 2 (Seq Bol (Seq (Lit (js "#")) (Seq (Rep 3 (ignore_case hex_upper)) Eol)))).

Definition matchLang (p : Props) : option match_result :=
  match exec re_lang (class_string p) with
  | Some m => Some m
  | None => exec re_language (class_string p)
  end.

Definition matchType (p : Props) : option match_result :=
  exec re_type (class_string p).

Definition matchPath (p : Props) : option match_result :=
  exec re_path (class_string p).

Definition matchLines (p : Props) : option match_result :=
  exec re_lines (class_string p).

Definition code (p : Props) : jsstring :=
  match nth_error (children p) 0 with
  | Some (Text s) => replace re_final_newline [] s
  | _ => []
  end.

(** [matchLines?.[1].split('-').map((l) => Number(l)) || []] : a match
    always has its group 1, and an array is truthy. *)
Definition lines (p : Props) : res (list number) :=
  match group 1 (matchLines p) with
  | Some v => mapM Number (split dash v)
  | None => Val []
  end.

(** The [backgroundColor] of the preview [span], or [None] for [null]. *)
Definition colorPreview (p : Props) : option jsstring :=
  match nth_error (children p) 0 with
  | Some (Text s) =>
      if truthy_string (Some s) && Nat.eqb (length (children p)) 1
         && test re_color s
      then Some s else None
  | _ => None
  end.

(** [[lines[0] - 1, (lines[1] ?? lines[0]) - 1]] *)
Definition linesToUse (p : Props) : res (number * number) :=
  ls <- lines p ;;
  Val (sub (ToNumber (nth_error ls 0)) (Int 1),
       sub (ToNumber (nullish (nth_error ls 1) (nth_error ls 0))) (Int 1)).

(** What a call of [handleChipClick] does. *)
Definition handleChipClick (p : Props) : res event :=
  ls <- lines p ;;
  Val (updateScrollToIndex
         (toString (sub (ToNumber (nth_error ls 0)) (Int 1))
          ++ js "_"
          ++ toString (sub (ToNumber (nullish (nth_error ls 1) (nth_error ls 0)))
                           (Int 1)))).

(** [lines[0] ? lines[0] - 1 : null] *)
Definition startLine (p : Props) : res (option number) :=
  ls <- lines p ;;
  Val (if truthy_number (nth_error ls 0)
       then Some (sub (ToNumber (nth_error ls 0)) (Int 1))
       else None).

(** A 3- or 6-digit hex color literal, in either case, with nothing around
    it: [#] and then exactly three or exactly six hexadecimal digits. *)
Definition hex_color_literal (t : jsstring) : bool :=
  match t with
  | c :: ds =>
      N.eqb c 35
      && (Nat.eqb (length ds) 3 || Nat.eqb (length ds) 6)
      && forallb hex_digit ds
  | [] => false
  end.

Section Render.

(** [JSON.parse] on the blob of pass-through attributes: the object it
    denotes, or [None] when [JSON.parse] throws a [SyntaxError]. *)
Variable attrs : Type.
Variable JSON_parse : jsstring -> option attrs.

(** [<code {...JSON.parse(propsJSON)} className={className}>{children}</code>] *)
Record code_element : Type := {
  code_spread : attrs;
  code_className : option jsstring;
  code_children : list ReactNode
}.

(** The element the component returns. *)
Inductive element : Type :=
| FileChip (fileName filePath : jsstring) (skipIcon : bool)
           (onClick : event) (lines : number * number)
| CodeWithBreadcrumbs (code language filePath : jsstring)
                      (startLine : option number) (repoName : jsstring)
| NewCode (code language : jsstring)
| ColorSwatch (backgroundColor : jsstring) (c : code_element)
| PlainCode (c : code_element).

Definition plain_code (p : Props) : res code_element :=
  match JSON_parse (propsJSON p) with
  | Some a => Val {| code_spread := a;
                     code_className := className p;
                     code_children := children p |}
  | None => Throws
  end.

Definition is_string (n : option ReactNode) : bool :=
  match n with
  | Some (Text _) => true
  | _ => false
  end.

(** [matchType?.[1] === 'Quoted'] *)
Definition is_Quoted (v : option jsstring) : bool :=
  match v with
  | Some s => jsstring_eqb s (js "Quoted")
  | None => false
  end.

Definition CodeRenderer (p : Props) : res element :=
  if negb (truthy (inline p))
     && (truthy_string (group 1 (matchType p))
         || truthy_string (group 1 (matchLang p)))
     && is_string (nth_error (children p) 0)
  then
    if is_Quoted (group 1 (matchType p)) then
      if truthy (hideCode p) then
        click <- handleChipClick p ;;
        range <- linesToUse p ;;
        Val (FileChip (or_string (group 1 (matchPath p)) [])
                      (or_string (group 1 (matchPath p)) [])
                      false click range)
      else
        start <- startLine p ;;
        Val (CodeWithBreadcrumbs (code p)
                                 (or_string (group 1 (matchLang p)) [])
                                 (or_string (group 1 (matchPath p)) [])
                                 start (repoName p))
    else
      Val (NewCode (code p) (or_string (group 1 (matchLang p)) []))
  else
    match colorPreview p with
    | Some color => c <- plain_code p ;; Val (ColorSwatch color c)
    | None => c <- plain_code p ;; Val (PlainCode c)
    end.

End Render.

Arguments FileChip {attrs} fileName filePath skipIcon onClick lines.
Arguments CodeWithBreadcrumbs {attrs} code language filePath startLine repoName.
Arguments NewCode {attrs} code language.

End CodeRenderer.

(* ================================================================== *)
(** * The chat transcript view *)
(* ================================================================== *)

(** The types of [types/general] that the transcript view imports.  The
    file is not among the sources; the types follow the data model of the
    specification. *)
Module general.
Import JS.

(** Modelled from the spec: the discriminant of a turn, [ChatMessageAuthor]
    of [types/general]. *)
Inductive ChatMessageAuthor : Type :=
| User
| Server.

Section Messages.

(** The types of a loading-step descriptor and of a result payload. *)
Variables LoadingStep Results : Type.

(** Modelled from the spec: [ChatMessageServer] of [types/general].  The
    loading flag, the loading steps, the result payload, the error text,
    the query identifier, the response timestamp, the optional explained
    file and the loaded-from-history flag exist on Server turns only. *)
Record ChatMessageServer : Type := {
  text : jsstring;
  isLoading : bool;
  loadingSteps : list LoadingStep;
  results : Results;
  error : jsstring;
  queryId : jsstring;
  responseTimestamp : jsstring;
  explainedFile : option jsstring;
  isFromHistory : bool
}.

(** Modelled from the spec: [ChatMessage] of [types/general], a tagged
    union on the author; a User turn carries its text only. *)
Inductive ChatMessage : Type :=
| FromUser (text : jsstring)
| FromServer (m : ChatMessageServer).

Definition author (m : ChatMessage) : ChatMessageAuthor :=
  match m with
  | FromUser _ => User
  | FromServer _ => Server
  end.

End Messages.

Arguments FromUser {LoadingStep Results} text.

End general.

(** The props the transcript view hands to the renderer of one turn; the
    callbacks [scrollToBottom] and [onMessageEdit] are handed on as they
    are and left out. *)
Module Message.
Import JS general.

Record Props (LoadingStep Results : Type) : Type := {
  key : Z;
  i : Z;
  isLoading : bool;
  loadingSteps : list LoadingStep;
  results : option Results;
  isHistory : option bool;
  author : ChatMessageAuthor;
  message : jsstring;
  error : jsstring;
  showInlineFeedback : bool;
  threadId : jsstring;
  queryId : jsstring;
  repoRef : jsstring;
  repoName : jsstring;
  responseTimestamp : option jsstring;
  explainedFile : option jsstring
}.

End Message.

Module Conversation.
Import JS general.

(** ** The projection of the turns *)

Section Projection.

Variables LoadingStep Results : Type.

Record Props : Type := {
  conversation : list (ChatMessage LoadingStep Results);
  threadId : jsstring;
  repoRef : jsstring;
  isLoading : option bool;
  isHistory : option bool;
  repoName : jsstring
}.

(** [a[i]] for an array [a]: [undefined] outside [0 .. a.length - 1]. *)
Definition get {A : Type} (a : list A) (i : Z) : option A :=
  if (i <? 0)%Z then None else nth_error a (Z.to_nat i).

(** Truthiness of an optional boolean prop. *)
Definition truthy (b : option bool) : bool :=
  match b with
  | Some true => true
  | _ => false
  end.

(** [(conversation[i - 1] as ChatMessageServer)?.queryId]: the field of
    the turn before, [undefined] when there is no such turn or the turn,
    being a User turn, has no such field. *)
Definition previous_queryId
  (conversation : list (ChatMessage LoadingStep Results)) (i : Z)
  : option jsstring :=
  match get conversation (i - 1) with
  | Some (FromServer s) => Some (general.queryId s)
  | Some (FromUser _) => None
  | None => None
  end.

Definition nil_uuid : jsstring := js "00000000-0000-0000-0000-000000000000".

(** The props of the [Message] rendered for the turn [m] at index [i]. *)
Definition message_props (p : Props) (i : Z)
  (m : ChatMessage LoadingStep Results) : Message.Props LoadingStep Results :=
  {| Message.key := i;
     Message.i := i;
     Message.isLoading :=
       match m with FromServer s => general.isLoading s | FromUser _ => false end;
     Message.loadingSteps :=
       match m with FromServer s => general.loadingSteps s | FromUser _ => [] end;
     Message.results :=
       match m with FromServer s => Some (general.results s) | FromUser _ => None end;
     Message.isHistory := isHistory p;
     Message.author := author m;
     Message.message :=
       match m with FromServer s => general.text s | FromUser t => t end;
     Message.error :=
       match m with FromServer s => general.error s | FromUser _ => [] end;
     Message.showInlineFeedback :=
       match m with
       | FromServer s =>
           negb (general.isLoading s)
           && negb (truthy (isLoading p))
           && (i =? Z.of_nat (length (conversation p)) - 1)%Z
           && negb (general.isFromHistory s)
       | FromUser _ => false
       end;
     Message.threadId := threadId p;
     Message.queryId :=
       match m with
       | FromServer s => general.queryId s
       | FromUser _ => or_string (previous_queryId (conversation p) i) nil_uuid
       end;
     Message.repoRef := repoRef p;
     Message.repoName := repoName p;
     Message.responseTimestamp :=
       match m with
       | FromServer s => Some (general.responseTimestamp s)
       | FromUser _ => None
       end;
     Message.explainedFile :=
       match m with FromServer s => general.explainedFile s | FromUser _ => None end
  |}.

(** [a.map((m, i) => f(m, i))], from index [i] on. *)
Fixpoint map_from {A B : Type} (f : Z -> A -> B) (i : Z) (a : list A) : list B :=
  match a with
  | [] => []
  | m :: a' => f i m :: map_from f (i + 1)%Z a'
  end.

(** The [Message]s the view renders, in order. *)
Definition Conversation (p : Props) : list (Message.Props LoadingStep Results) :=
  map_from (message_props p) 0%Z (conversation p).

End Projection.

(** ** The scroll-follow controller *)

(** The scroll metrics of the container [messagesRef.current]. *)
Record container : Type := {
  scrollTop : Q;
  scrollHeight : Z;
  clientHeight : Z
}.

Definition Qltb (a b : Q) : bool := negb (Qle_bool b a).

(** The value [handleScroll] sets [userScrolledUp] to; with no container
    attached the state is left as it is. *)
Definition handleScroll (current : option container) (userScrolledUp : bool) : bool :=
  match current with
  | Some el => Qltb (scrollTop el) (inject_Z (scrollHeight el - clientHeight el))
  | None => userScrolledUp
  end.

(** A call of [scrollTo] on the container. *)
Inductive command : Type :=
| scrollTo (left top : Z) (smooth : bool).

Definition scrollToBottom (current : option container) : list command :=
  match current with
  | Some el => [scrollTo 0 (scrollHeight el) true]
  | None => []
  end.

(** The effect that follows new content. *)
Definition follow (current : option container) (userScrolledUp : bool)
  : list command :=
  if negb userScrolledUp then scrollToBottom current else [].

(** What happens to a mounted view: a native scroll event, or a render
    after which the effect runs. *)
Inductive happening : Type :=
| onScroll (current : option container)
| render (current : option container).

(** The state is the value of [userScrolledUp]. *)
Definition step (userScrolledUp : bool) (h : happening) : bool * list command :=
  match h with
  | onScroll current => (handleScroll current userScrolledUp, [])
  | render current => (userScrolledUp, follow current userScrolledUp)
  end.

Fixpoint run (userScrolledUp : bool) (hs : list happening) : bool * list command :=
  match hs with
  | [] => (userScrolledUp, [])
  | h :: hs' =>
      let (s, out) := step userScrolledUp h in
      let (s', out') := run s hs' in
      (s', out ++ out')
  end.

(** [useState(false)] *)
Definition mount : bool := false.

(** A happening that is not a scroll event observing the container at the
    bottom ([scrollTop >= scrollHeight - clientHeight]). *)
Definition above_bottom (h : happening) : Prop :=
  match h with
  | onScroll (Some el) =>
      (scrollTop el < inject_Z (scrollHeight el - clientHeight el))%Q
  | _ => True
  end.

End Conversation.
(* ================================================================== *)
(** * Sample inputs *)
(* ================================================================== *)

Module Samples.
Import JS general.

(** A completed answer with the query identifier [id]. *)
Definition reply (id : jsstring) : ChatMessageServer unit unit :=
  {| text := js "It is in main.rs.";
     isLoading := false;
     loadingSteps := [];
     results := tt;
     error := [];
     queryId := id;
     responseTimestamp := js "2023-07-01T10:00:00Z";
     explainedFile := None;
     isFromHistory := false |}.

Definition answer (id : jsstring) : ChatMessage unit unit := FromServer (reply id).

Definition question : ChatMessage unit unit := FromUser (js "Where is main?").

Definition view (turns : list (ChatMessage unit unit)) : Conversation.Props unit unit :=
  {| Conversation.conversation := turns;
     Conversation.threadId := js "thread";
     Conversation.repoRef := js "github.com/BloopAI/bloop";
     Conversation.isLoading := None;
     Conversation.isHistory := None;
     Conversation.repoName := js "bloop" |}.

Definition some_uuid : jsstring := js "6f1c2d3e-0000-4000-8000-000000000001".

(** A container scrolled to [top], 500 pixels of content in a viewport
    of 200. *)
Definition scrolled (top : Q) : Conversation.container :=
  {| Conversation.scrollTop := top;
     Conversation.scrollHeight := 500;
     Conversation.clientHeight := 200 |}.

(** A code element with the class string [cls] and the single text child
    [content]. *)
Definition code_props (cls content : string) (hide inl : option bool)
  : CodeRenderer.Props :=
  {| CodeRenderer.children := [CodeRenderer.Text (js content)];
     CodeRenderer.repoName := js "bloop";
     CodeRenderer.hideCode := hide;
     CodeRenderer.className := Some (js cls);
     CodeRenderer.propsJSON := js "{}";
     CodeRenderer.inline := inl |}.

(** An inline code element without a class and with the single text child
    [content]. *)
Definition inline_code (content : string) : CodeRenderer.Props :=
  {| CodeRenderer.children := [CodeRenderer.Text (js content)];
     CodeRenderer.repoName := js "bloop";
     CodeRenderer.hideCode := None;
     CodeRenderer.className := None;
     CodeRenderer.propsJSON := js "{}";
     CodeRenderer.inline := Some true |}.

(** A [JSON.parse] that reads every blob as the empty object. *)
Definition parse_empty (blob : jsstring) : option (list (jsstring * jsstring)) :=
  Some [].

End Samples.

(* ================================================================== *)
(** * Notions used to state further properties *)
(* ================================================================== *)

Module Notions.
Import JS general.

(** The text of a turn, [m.text]. *)
Definition text_of {LoadingStep Results : Type}
           (m : ChatMessage LoadingStep Results) : jsstring :=
  match m with
  | FromUser t => t
  | FromServer s => general.text s
  end.

(** A happening that finds no container attached to [messagesRef]. *)
Definition detached (h : Conversation.happening) : Prop :=
  match h with
  | Conversation.onScroll None => True
  | Conversation.render None => True
  | _ => False
  end.

(** The indices [i, i + 1, ..., i + n - 1]. *)
Fixpoint indices (i : Z) (n : nat) : list Z :=
  match n with
  | O => []
  | S n' => i :: indices (i + 1) n'
  end.

End Notions.

(** Notions for the annotation decoder. *)
Module DecoderNotions.
Import JS CodeRenderer.

(** The condition of the first branch of the returned expression:
    [!inline && (matchType?.[1] || matchLang?.[1])
     && typeof children[0] === 'string']. *)
Definition rich (p : Props) : bool :=
  negb (truthy (inline p))
  && (truthy_string (group 1 (matchType p))
      || truthy_string (group 1 (matchLang p)))
  && is_string (nth_error (children p) 0).

(** The props [p] with other children. *)
Definition with_children (p : Props) (ch : list ReactNode) : Props :=
  {| children := ch; repoName := repoName p; hideCode := hideCode p;
     className := className p; propsJSON := propsJSON p; inline := inline p |}.

(** The props [p] with another [hideCode]. *)
Definition with_hideCode (p : Props) (h : option bool) : Props :=
  {| children := children p; repoName := repoName p; hideCode := h;
     className := className p; propsJSON := propsJSON p; inline := inline p |}.

(** An unsigned decimal numeral: a non-empty string of digits. *)
Definition numeral (ds : jsstring) : bool :=
  match ds with
  | [] => false
  | _ :: _ => forallb digit ds
  end.

(** The value of a numeral that denotes a safe integer. *)
Definition value (ds : jsstring) : Z := digits_value 10 ds.

(** A lines tag with the bound [a], or the bounds [a] and [b]. *)
Definition lines_tag (a : jsstring) (b : option jsstring) : jsstring :=
  js "lines:" ++ a ++ match b with Some d => dash :: d | None => [] end.

(** A [JSON.parse] that rejects every blob. *)
Definition parse_nothing (blob : jsstring) : option (list (jsstring * jsstring)) :=
  None.

End DecoderNotions.

(** The transcript view with the dependency array of its effect and the
    calls of its children.

    The effect of the view has the dependencies
    [[conversation, scrollToBottom, userScrolledUp]]: it runs after the
    first render, and after a render in which [conversation] is a new
    reference or [userScrolledUp] differs from its value at the render
    before ([scrollToBottom] is a [useCallback] without dependencies and
    never changes).  [scrollToBottom] is also handed to every [Message],
    which may call it at any time; it does not look at [userScrolledUp]. *)
Module View.
Import Conversation.

(** The state of a mounted view: [userScrolledUp], and its value at the
    last render, [None] before the first render. *)
Record state : Type := {
  userScrolledUp : bool;
  seen : option bool
}.

Inductive happening : Type :=
| Scroll (current : option container)
| Render (fresh : bool) (current : option container)
| Child (current : option container).

(** Whether the effect runs after a render; [fresh] says that the
    [conversation] prop is a new reference. *)
Definition effect_runs (st : state) (fresh : bool) : bool :=
  match seen st with
  | None => true
  | Some before => fresh || xorb before (userScrolledUp st)
  end.

Definition step (st : state) (h : happening) : state * list command :=
  match h with
  | Scroll current =>
      ({| userScrolledUp := handleScroll current (userScrolledUp st);
          seen := seen st |}, [])
  | Render fresh current =>
      ({| userScrolledUp := userScrolledUp st;
          seen := Some (userScrolledUp st) |},
       if effect_runs st fresh then follow current (userScrolledUp st) else [])
  | Child current => (st, scrollToBottom current)
  end.

Fixpoint run (st : state) (hs : list happening) : state * list command :=
  match hs with
  | [] => (st, [])
  | h :: hs' =>
      let (st1, out) := step st h in
      let (st2, out') := run st1 hs' in
      (st2, out ++ out')
  end.

(** [useState(false)], before the first render. *)
Definition mount : state := {| userScrolledUp := false; seen := None |}.

(** The last render saw the flag as it is now. *)
Definition settled (st : state) : Prop := seen st = Some (userScrolledUp st).

(** No scroll event of the happening observes the bottom. *)
Definition stays_up (h : happening) : Prop :=
  match h with
  | Scroll (Some el) =>
      (scrollTop el < inject_Z (scrollHeight el - clientHeight el))%Q
  | _ => True
  end.

(** No scroll event of the happening observes the container above the
    bottom. *)
Definition stays_down (h : happening) : Prop :=
  match h with
  | Scroll (Some el) =>
      (inject_Z (scrollHeight el - clientHeight el) <= scrollTop el)%Q
  | _ => True
  end.

(** The scrolling a child asks for. *)
Definition requested (h : happening) : list command :=
  match h with
  | Child current => scrollToBottom current
  | _ => []
  end.

(** The scrolling of a following view: for a render with a new
    transcript, and for a child that asks. *)
Definition followed (h : happening) : list command :=
  match h with
  | Render true current => scrollToBottom current
  | Child current => scrollToBottom current
  | _ => []
  end.

(** The scroll events of a happening, as the flag sees them. *)
Definition scrolls (h : happening) : list Conversation.happening :=
  match h with
  | Scroll current => [onScroll current]
  | _ => []
  end.

End View.

(* ================================================================== *)
(** * The transcript view: properties *)
(* ================================================================== *)

Module ConversationFacts.
Import JS general Conversation.

Section Projection.

Variables LoadingStep Results : Type.
Implicit Types (p : Props LoadingStep Results) (m : ChatMessage LoadingStep Results).

Lemma get_nil (A : Type) (k : Z) : get (@nil A) k = None.
Proof.
  unfold get. destruct (k <? 0)%Z; [reflexivity|]. now destruct (Z.to_nat k).
Qed.

Lemma get_cons (A : Type) (x : A) (a : list A) (k : Z) :
  (0 <= k)%Z -> get (x :: a) k = if (k =? 0)%Z then Some x else get a (k - 1).
Proof.
  intros Hk. unfold get.
  destruct (Z.ltb_spec k 0); [lia|].
  destruct (Z.eqb_spec k 0) as [->|Hne]; [reflexivity|].
  destruct (Z.ltb_spec (k - 1) 0); [lia|].
  replace (Z.to_nat k) with (S (Z.to_nat (k - 1))) by lia. reflexivity.
Qed.

Lemma get_negative (A : Type) (a : list A) (k : Z) : (k < 0)%Z -> get a k = None.
Proof. intros Hk. unfold get. now destruct (Z.ltb_spec k 0); [|lia]. Qed.

Lemma get_map_from (A B : Type) (f : Z -> A -> B) (a : list A) :
  forall i k, get (map_from f i a) k = option_map (f (i + k)%Z) (get a k).
Proof.
  induction a as [|x a IH]; intros i k.
  - simpl. now rewrite !get_nil.
  - destruct (Z.ltb_spec k 0) as [Hneg|Hpos].
    + now rewrite !get_negative.
    + simpl. rewrite !get_cons by assumption.
      destruct (Z.eqb_spec k 0) as [->|Hne].
      * simpl. now rewrite Z.add_0_r.
      * rewrite IH. now replace (i + 1 + (k - 1))%Z with (i + k)%Z by lia.
Qed.

(** The [Message] at index [i] is the projection of the turn at [i]. *)
Lemma Conversation_get p (i : Z) :
  get (Conversation p) i = option_map (message_props p i) (get (conversation p) i).
Proof. unfold Conversation. now rewrite get_map_from. Qed.

(** C4.  In a transcript of length N the [Message] of the turn at index
    [i] gets [showInlineFeedback = true] exactly when the turn is
    Server-authored, its own loading flag is false, the overall loading
    flag of the view is not set (the prop is optional: false or left out),
    [i = N - 1], and the turn is not flagged as loaded from history.  At
    every index other than [N - 1] the flag is false. *)
Theorem showInlineFeedback_iff p (i : Z) m :
  get (conversation p) i = Some m ->
  exists props,
    get (Conversation p) i = Some props /\
    (Message.showInlineFeedback props = true <->
     exists s, m = FromServer s
       /\ general.isLoading s = false
       /\ isLoading p <> Some true
       /\ i = (Z.of_nat (length (conversation p)) - 1)%Z
       /\ general.isFromHistory s = false) /\
    (i <> (Z.of_nat (length (conversation p)) - 1)%Z ->
     Message.showInlineFeedback props = false).
Proof.
  intros Hm. exists (message_props p i m). split.
  - now rewrite Conversation_get, Hm.
  - destruct m as [t|s]; simpl.
    + split; [split; [discriminate|]|reflexivity].
      intros (s & Hs & _). discriminate.
    + split.
      * rewrite !andb_true_iff, !negb_true_iff, Z.eqb_eq. split.
        -- intros [[[H1 H2] H3] H4]. exists s. repeat split; try assumption.
           intros Hp. rewrite Hp in H2. discriminate.
        -- intros (s' & Hs & H1 & H2 & H3 & H4). injection Hs as <-.
           repeat split; try assumption.
           destruct (isLoading p) as [[|]|]; try reflexivity. now elim H2.
      * intros Hi. apply Z.eqb_neq in Hi. rewrite Hi.
        now rewrite andb_false_r.
Qed.

(** C1, amended.  The [queryId] handed to the [Message] of a Server turn
    is the turn's own query identifier.  For a User turn at index [i] it
    is the query identifier of the turn at [i - 1] when that turn exists,
    is Server-authored and its identifier is not the empty string; it is
    the nil UUID when [i = 0], when the turn before is User-authored, and
    when the turn before is a Server turn whose identifier is empty. *)
Theorem effectiveQueryId_spec p (i : Z) m :
  get (conversation p) i = Some m ->
  exists props,
    get (Conversation p) i = Some props /\
    (forall s, m = FromServer s -> Message.queryId props = general.queryId s) /\
    (forall t s, m = FromUser t ->
       get (conversation p) (i - 1) = Some (FromServer s) ->
       general.queryId s <> [] ->
       Message.queryId props = general.queryId s) /\
    (forall t, m = FromUser t ->
       i = 0%Z
       \/ (exists t', get (conversation p) (i - 1) = Some (FromUser t'))
       \/ (exists s, get (conversation p) (i - 1) = Some (FromServer s)
                     /\ general.queryId s = []) ->
       Message.queryId props = nil_uuid).
Proof.
  intros Hm. exists (message_props p i m). split.
  - now rewrite Conversation_get, Hm.
  - repeat split.
    + now intros s ->.
    + intros t s -> Hprev Hid. simpl. unfold previous_queryId. rewrite Hprev.
      simpl. destruct (general.queryId s); [now elim Hid|reflexivity].
    + intros t -> Hcase. simpl. unfold previous_queryId.
      destruct Hcase as [-> | [[t' Hprev] | [s [Hprev Hid]]]].
      * now rewrite get_negative by lia.
      * now rewrite Hprev.
      * rewrite Hprev. simpl. now rewrite Hid.
Qed.

End Projection.

(** A last, completed, fresh answer gets the feedback affordance. *)
Lemma showInlineFeedback_iff_witness :
  exists props,
    get (Conversation (Samples.view [Samples.question; Samples.answer Samples.some_uuid])) 1
      = Some props /\
    Message.showInlineFeedback props = true.
Proof.
  destruct (@showInlineFeedback_iff unit unit
              (Samples.view [Samples.question; Samples.answer Samples.some_uuid]) 1
              (Samples.answer Samples.some_uuid) eq_refl)
    as (props & Hget & Hiff & _).
  exists props. split; [exact Hget|].
  apply Hiff. eexists. repeat split; discriminate.
Defined.

(** A question asked after an answer refers to that answer. *)
Lemma effectiveQueryId_spec_witness :
  exists props,
    get (Conversation (Samples.view [Samples.answer Samples.some_uuid; Samples.question])) 1
      = Some props /\
    Message.queryId props = Samples.some_uuid.
Proof.
  destruct (@effectiveQueryId_spec unit unit
              (Samples.view [Samples.answer Samples.some_uuid; Samples.question]) 1
              Samples.question eq_refl)
    as (props & Hget & _ & Hprev & _).
  exists props. split; [exact Hget|].
  apply (Hprev (js "Where is main?") (Samples.reply Samples.some_uuid));
    [reflexivity|reflexivity|discriminate].
Defined.

(** C1 as stated fails: after a Server turn whose query identifier is the
    empty string, the User turn gets the nil UUID and not the identifier
    of the turn before it. *)
Lemma effectiveQueryId_empty_counterexample :
  let p := Samples.view [Samples.answer []; Samples.question] in
  get (conversation p) 1 = Some (FromUser (js "Where is main?")) /\
  get (conversation p) (1 - 1) = Some (FromServer (Samples.reply [])) /\
  option_map (@Message.queryId unit unit) (get (Conversation p) 1) = Some nil_uuid /\
  nil_uuid <> general.queryId (Samples.reply []).
Proof.
  repeat split. discriminate.
Qed.

(** ** The scroll-follow flag *)

Lemma Qltb_lt (a b : Q) : Qltb a b = true <-> (a < b)%Q.
Proof.
  unfold Qltb. rewrite negb_true_iff. split.
  - intros H. apply Qnot_le_lt. intros Hle.
    apply Qle_bool_iff in Hle. congruence.
  - intros H. destruct (Qle_bool b a) eqn:E; [|reflexivity].
    apply Qle_bool_iff in E. now apply Qlt_not_le in H.
Qed.

Lemma Qltb_ge (a b : Q) : Qltb a b = false <-> (b <= a)%Q.
Proof.
  unfold Qltb. rewrite negb_false_iff. apply Qle_bool_iff.
Qed.

Lemma run_app (s : bool) (hs hs' : list happening) :
  fst (run s (hs ++ hs')) = fst (run (fst (run s hs)) hs').
Proof.
  revert s. induction hs as [|h hs IH]; intros s; [reflexivity|].
  simpl. destruct (step s h) as [s1 o1]. specialize (IH s1).
  destruct (run s1 (hs ++ hs')) as [s2 o2].
  destruct (run s1 hs) as [s3 o3]. simpl in *. exact IH.
Qed.

(** Renders, scroll events without a container, and scroll events above
    the bottom leave a raised flag raised. *)
Lemma run_stays_up (hs : list happening) :
  Forall above_bottom hs -> fst (run true hs) = true.
Proof.
  induction 1 as [|h hs Hh _ IH]; [reflexivity|].
  simpl. destruct h as [[el|]|current]; simpl in *.
  - apply Qltb_lt in Hh. rewrite Hh.
    destruct (run true hs); exact IH.
  - destruct (run true hs); exact IH.
  - destruct (run true hs); exact IH.
Qed.

(** C5.  Whatever happened before, after a scroll event that observes
    [scrollTop < scrollHeight - clientHeight] the flag [userScrolledUp] is
    true, and it is still true after any number of renders (and of scroll
    events that do not observe the bottom); the first scroll event that
    observes [scrollTop >= scrollHeight - clientHeight] makes it false.
    Being exactly at the bottom is such an event: it counts as
    following. *)
Theorem userScrolledUp_until_bottom
  (s0 : bool) (before between : list happening) (el : container) :
  (scrollTop el < inject_Z (scrollHeight el - clientHeight el))%Q ->
  Forall above_bottom between ->
  fst (run s0 (before ++ [onScroll (Some el)])) = true /\
  fst (run s0 (before ++ onScroll (Some el) :: between)) = true /\
  (forall el',
     (inject_Z (scrollHeight el' - clientHeight el') <= scrollTop el')%Q ->
     fst (run s0 (before ++ onScroll (Some el) :: between ++ [onScroll (Some el')]))
       = false) /\
  (forall el',
     (scrollTop el' == inject_Z (scrollHeight el' - clientHeight el'))%Q ->
     handleScroll (Some el') true = false).
Proof.
  intros Hup Hbetween.
  assert (Hscroll : forall s, fst (run s [onScroll (Some el)]) = true).
  { intros s. simpl. now apply Qltb_lt. }
  assert (Hkeep : fst (run s0 (before ++ onScroll (Some el) :: between)) = true).
  { change (onScroll (Some el) :: between) with ([onScroll (Some el)] ++ between).
    rewrite !run_app, Hscroll. now apply run_stays_up. }
  repeat split.
  - now rewrite run_app.
  - exact Hkeep.
  - intros el' Hbottom.
    change (onScroll (Some el) :: between ++ [onScroll (Some el')])
      with ((onScroll (Some el) :: between) ++ [onScroll (Some el')]).
    rewrite app_assoc, run_app, Hkeep. simpl. now apply Qltb_ge.
  - intros el' Heq. simpl. apply Qltb_ge. rewrite Heq. apply Qle_refl.
Qed.

(** The user scrolls up to offset 120 of 300, three renders follow, then
    the user scrolls back to the bottom. *)
Lemma userScrolledUp_until_bottom_witness :
  fst (run mount [render (Some (Samples.scrolled 300));
                  onScroll (Some (Samples.scrolled 120));
                  render (Some (Samples.scrolled 120));
                  render (Some (Samples.scrolled 120));
                  render (Some (Samples.scrolled 120))]) = true /\
  fst (run mount [render (Some (Samples.scrolled 300));
                  onScroll (Some (Samples.scrolled 120));
                  render (Some (Samples.scrolled 120));
                  render (Some (Samples.scrolled 120));
                  render (Some (Samples.scrolled 120));
                  onScroll (Some (Samples.scrolled 300))]) = false.
Proof.
  assert (Hup : (scrollTop (Samples.scrolled 120)
                 < inject_Z (scrollHeight (Samples.scrolled 120)
                             - clientHeight (Samples.scrolled 120)))%Q)
    by reflexivity.
  assert (Hbetween : Forall above_bottom
            [render (Some (Samples.scrolled 120));
             render (Some (Samples.scrolled 120));
             render (Some (Samples.scrolled 120))])
    by (repeat constructor).
  destruct (@userScrolledUp_until_bottom mount
              [render (Some (Samples.scrolled 300))] _ _ Hup Hbetween)
    as (_ & Hkeep & Hdown & _).
  split; [exact Hkeep|].
  apply (Hdown (Samples.scrolled 300)). discriminate.
Defined.

End ConversationFacts.
(* ================================================================== *)
(** * The runtime on sample inputs *)
(* ================================================================== *)

Module RuntimeExamples.
Import JS CodeRenderer.

Example exec_lang :
  group 1 (exec re_lang (js "language-type:Quoted,lang:Rust,path:src/main.rs,lines:1-5"))
  = Some (js "Rust").
Proof. reflexivity. Qed.

(** The run of [.+] is greedy: it ends before the last comma. *)
Example exec_path_greedy :
  group 1 (exec re_path (js "language-type:Quoted,lang:Rust,path:src/main.rs,lines:1-5"))
  = Some (js "src/main.rs")
  /\ group 1 (exec re_path (js "path:a,b, lines:5")) = Some (js "a,b").
Proof. split; reflexivity. Qed.

(** An empty value is no value. *)
Example exec_path_empty : exec re_path (js "path:, lines:5") = None.
Proof. reflexivity. Qed.

Example exec_lines_rest_of_line :
  group 1 (exec re_lines (js "path:a.py, lines:5 wide")) = Some (js "5 wide").
Proof. reflexivity. Qed.

Example split_bounds :
  split dash (js "10-20") = [js "10"; js "20"]
  /\ split dash (js "5") = [js "5"]
  /\ split dash (js "-5") = [[]; js "5"]
  /\ split dash [] = [[]].
Proof. repeat split. Qed.

Example Number_samples :
  map Number (map js ["5"; " 20 "; ""; "abc"; "5 wide"; "0x1f"; "1e3"; "-7"; "5."]%string)
  = [Val (Int 5); Val (Int 20); Val (Int 0); Val NaN; Val NaN; Val (Int 31);
     Val (Int 1000); Val (Int (-7)); Val (Int 5)]
  /\ map Number (map js ["1.5"; "Infinity"; "9007199254740992"]%string)
     = [Beyond; Beyond; Beyond].
Proof. split; vm_compute; reflexivity. Qed.

Example toString_samples :
  map toString [Int 4; Int 0; Int (-1); NaN] = map js ["4"; "0"; "-1"; "NaN"]%string.
Proof. vm_compute. reflexivity. Qed.

(** [/\n$/] removes one final newline. *)
Example replace_final_newline :
  replace re_final_newline [] [97; 10; 10]%N = [97; 10]%N
  /\ replace re_final_newline [] [97; 10; 98]%N = [97; 10; 98]%N.
Proof. split; reflexivity. Qed.

End RuntimeExamples.

(* ================================================================== *)
(** * The matcher: properties *)
(* ================================================================== *)

Module RegexFacts.
Import JS.

Lemma strip_Some (l s s' : jsstring) : strip l s = Some s' <-> s = l ++ s'.
Proof.
  revert s. induction l as [|a l IH]; intros s; simpl.
  - split; congruence.
  - destruct s as [|b s]; [split; discriminate|].
    unfold char_eqb. destruct (N.eqb_spec a b) as [->|Hne].
    + rewrite IH. split; congruence.
    + split; [discriminate|]. intros H. injection H as H _. now elim Hne.
Qed.

Lemma strip_app (l s : jsstring) : strip l (l ++ s) = Some s.
Proof. now apply strip_Some. Qed.

Lemma span_app (p : char -> bool) (s : jsstring) :
  s = fst (span p s) ++ snd (span p s).
Proof.
  induction s as [|c s IH]; [reflexivity|]. simpl.
  destruct (p c); [|reflexivity].
  destruct (span p s) as [a b]. simpl in *. now f_equal.
Qed.

Lemma span_forallb (p : char -> bool) (s : jsstring) :
  forallb p (fst (span p s)) = true.
Proof.
  induction s as [|c s IH]; [reflexivity|]. simpl.
  destruct (p c) eqn:E; [|reflexivity].
  destruct (span p s) as [a b]. simpl in *. now rewrite E.
Qed.

(** What follows the longest prefix in the class does not start in the
    class. *)
Lemma span_stop (p : char -> bool) (s : jsstring) (c : char) (t : jsstring) :
  snd (span p s) = c :: t -> p c = false.
Proof.
  induction s as [|d s IH]; [discriminate|]. simpl.
  destruct (p d) eqn:E.
  - destruct (span p s) as [a b]. simpl in *. exact IH.
  - simpl. intros H. injection H as -> _. exact E.
Qed.

(** ** The greedy star *)

Section Star.

Variables (p : char -> bool) (k : cont).

Lemma star_inv (s : jsstring) (n : nat) (cs : list (nat * jsstring)) (y : mstate) :
  star p s n cs k = Some y ->
  exists v post, s = v ++ post /\ forallb p v = true
                 /\ k (MState (n + length v) post cs) = Some y.
Proof.
  revert n. induction s as [|c s IH]; intros n; simpl.
  - intros H. exists [], []. simpl. now rewrite Nat.add_0_r.
  - destruct (p c) eqn:E.
    + destruct (star p s (S n) cs k) as [z|] eqn:Es.
      * intros H. injection H as ->.
        destruct (IH _ Es) as (v & post & -> & Hv & Hk).
        exists (c :: v), post. simpl. rewrite E, Hv.
        now replace (n + S (length v)) with (S n + length v) by lia.
      * intros H. exists [], (c :: s). simpl. now rewrite Nat.add_0_r.
    + intros H. exists [], (c :: s). simpl. now rewrite Nat.add_0_r.
Qed.

Lemma star_none (s : jsstring) (n : nat) (cs : list (nat * jsstring)) :
  (forall v post, s = v ++ post -> forallb p v = true ->
                  k (MState (n + length v) post cs) = None) ->
  star p s n cs k = None.
Proof.
  intros H. destruct (star p s n cs k) as [y|] eqn:E; [|reflexivity].
  apply star_inv in E as (v & post & Hs & Hv & Hk).
  now rewrite (H _ _ Hs Hv) in Hk.
Qed.

(** The star stops at the longest prefix in the class after which the
    continuation succeeds. *)
Lemma star_greedy (v post : jsstring) (n : nat) (cs : list (nat * jsstring))
      (y : mstate) :
  forallb p v = true ->
  k (MState (n + length v) post cs) = Some y ->
  (forall v' post', v ++ post = v' ++ post' -> forallb p v' = true ->
                    length v < length v' ->
                    k (MState (n + length v') post' cs) = None) ->
  star p (v ++ post) n cs k = Some y.
Proof.
  revert n. induction v as [|c v IH]; intros n Hv Hk Hlonger.
  - simpl in *. rewrite Nat.add_0_r in Hk.
    destruct post as [|c post]; simpl; [exact Hk|].
    destruct (p c) eqn:E; [|exact Hk].
    rewrite star_none; [exact Hk|].
    intros v' post' Hs Hv'.
    replace (S n + length v') with (n + length (c :: v')) by (simpl; lia).
    apply Hlonger; simpl; [now rewrite Hs|now rewrite E|lia].
  - simpl in *. apply andb_true_iff in Hv as [Hc Hv]. rewrite Hc.
    rewrite (IH (S n)); [reflexivity|exact Hv| |].
    + now replace (S n + length v) with (n + S (length v)) by lia.
    + intros v' post' Hs Hv' Hlen.
      replace (S n + length v') with (n + length (c :: v')) by (simpl; lia).
      apply Hlonger; simpl; [now rewrite Hs|now rewrite Hc|lia].
Qed.

End Star.

(** ** The leftmost match *)

Section Exec.

Variable r : regex.

Lemma exec_at_eq (n : nat) (s : jsstring) :
  exec_at r n s =
  match match_at r n s with
  | Some y => Some (Match n (pos y) (caps y))
  | None => match s with [] => None | _ :: s' => exec_at r (S n) s' end
  end.
Proof. now destruct s. Qed.

Lemma exec_at_inv (s : jsstring) (n : nat) (m : match_result) :
  exec_at r n s = Some m ->
  exists a b y, s = a ++ b /\ match_at r (n + length a) b = Some y
    /\ m = Match (n + length a) (pos y) (caps y)
    /\ (forall a' b', s = a' ++ b' -> length a' < length a ->
                      match_at r (n + length a') b' = None).
Proof.
  revert n. induction s as [|c s IH]; intros n; rewrite exec_at_eq.
  - destruct (match_at r n []) as [y|] eqn:E; [|discriminate].
    intros H. injection H as <-. exists [], [], y. simpl. rewrite Nat.add_0_r.
    repeat split; try assumption. intros a' b' _ Hlt. lia.
  - destruct (match_at r n (c :: s)) as [y|] eqn:E.
    + intros H. injection H as <-. exists [], (c :: s), y. simpl.
      rewrite Nat.add_0_r. repeat split; try assumption.
      intros a' b' _ Hlt. lia.
    + intros H. destruct (IH _ H) as (a & b & y & -> & Hy & -> & Hfirst).
      exists (c :: a), b, y. simpl.
      replace (n + S (length a)) with (S n + length a) by lia.
      repeat split; try assumption.
      intros a' b' Hs Hlt. destruct a' as [|c' a']; simpl in *.
      * subst b'. now rewrite Nat.add_0_r.
      * injection Hs as <- Hs.
        replace (n + S (length a')) with (S n + length a') by lia.
        apply Hfirst; [assumption|lia].
Qed.

Lemma exec_at_first (a b : jsstring) (n : nat) (y : mstate) :
  match_at r (n + length a) b = Some y ->
  (forall a' b', a ++ b = a' ++ b' -> length a' < length a ->
                 match_at r (n + length a') b' = None) ->
  exec_at r n (a ++ b) = Some (Match (n + length a) (pos y) (caps y)).
Proof.
  revert n. induction a as [|c a IH]; intros n Hy Hfirst.
  - simpl in *. rewrite Nat.add_0_r in *. now rewrite exec_at_eq, Hy.
  - rewrite exec_at_eq.
    assert (H0 : match_at r n ((c :: a) ++ b) = None).
    { rewrite <- (Nat.add_0_r n) at 1. apply (Hfirst [] ((c :: a) ++ b)); simpl; [reflexivity|lia]. }
    rewrite H0. cbn [length app] in *.
    replace (n + S (length a)) with (S n + length a) in * by lia.
    apply IH; [exact Hy|].
    intros a' b' Hs Hlt.
    replace (S n + length a') with (n + length (c :: a')) by (simpl; lia).
    apply Hfirst; simpl; [now rewrite Hs|lia].
Qed.

Lemma exec_at_none (s : jsstring) (n : nat) :
  (forall a b, s = a ++ b -> match_at r (n + length a) b = None) ->
  exec_at r n s = None.
Proof.
  intros H. destruct (exec_at r n s) as [m|] eqn:E; [|reflexivity].
  apply exec_at_inv in E as (a & b & y & Hs & Hy & _).
  now rewrite (H _ _ Hs) in Hy.
Qed.

End Exec.
End RegexFacts.
(** * The tag patterns and the delimited pattern *)

Module PatternFacts.
Import JS RegexFacts CodeRenderer.

Lemma star_span (p : char -> bool) (k : cont) (s : jsstring) :
  (forall y, k y <> None) ->
  forall n cs,
    star p s n cs k
    = k (MState (n + length (fst (span p s))) (snd (span p s)) cs).
Proof.
  intros Hk. induction s as [|c s IH]; intros n cs; simpl.
  - now rewrite Nat.add_0_r.
  - destruct (p c) eqn:E; simpl.
    + rewrite IH. destruct (span p s) as [a b]. simpl.
      replace (n + S (length a)) with (S (n + length a)) by lia.
      destruct (k (MState (S (n + length a)) b cs)) eqn:Ek; [reflexivity|].
      now elim (Hk _ Ek).
    + now rewrite Nat.add_0_r.
Qed.

Lemma match_at_tag (l : jsstring) (p : char -> bool) (n : nat) (s : jsstring) :
  match_at (tag l p) n s =
  match strip l s with
  | Some s' =>
      match span p s' with
      | (c :: w, post) =>
          Some (MState (n + length l + length (c :: w)) post [(1, c :: w)])
      | ([], _) => None
      end
  | None => None
  end.
Proof.
  unfold match_at, tag. cbn -[Nat.sub firstn].
  destruct (strip l s) as [s'|]; [|reflexivity].
  cbn -[Nat.sub firstn]. destruct s' as [|c s']; [reflexivity|].
  cbn -[Nat.sub firstn]. destruct (p c) eqn:E; [|reflexivity].
  rewrite star_span by discriminate.
  pose proof (span_app p s') as Happ.
  destruct (span p s') as [w post]. cbn -[Nat.sub firstn] in *.
  replace (S (n + length l + length w) - (n + length l)) with (S (length w)) by lia.
  subst s'. rewrite firstn_cons, firstn_app, firstn_all, Nat.sub_diag, firstn_0, app_nil_r.
  now replace (S (n + length l + length w)) with (n + length l + S (length w)) by lia.
Qed.

Lemma match_at_tag_inv (l : jsstring) (p : char -> bool) (n : nat)
      (s : jsstring) (y : mstate) :
  match_at (tag l p) n s = Some y ->
  exists c w post, s = l ++ c :: w ++ post /\ p c = true
                   /\ span p (c :: w ++ post) = (c :: w, post)
                   /\ y = MState (n + length l + length (c :: w)) post [(1, c :: w)].
Proof.
  rewrite match_at_tag. destruct (strip l s) as [s'|] eqn:Es; [|discriminate].
  apply strip_Some in Es. subst s.
  pose proof (span_app p s') as Happ. pose proof (span_forallb p s') as Hall.
  destruct (span p s') as [[|c w] post] eqn:Esp; [discriminate|].
  intros H. injection H as <-. simpl in *.
  apply andb_true_iff in Hall as [Hc _].
  exists c, w, post. subst s'. repeat split; assumption.
Qed.

Lemma match_at_tag_none (l : jsstring) (p : char -> bool) (n : nat) (s : jsstring) :
  (forall c t, s = l ++ c :: t -> p c = false) ->
  match_at (tag l p) n s = None.
Proof.
  intros H. destruct (match_at (tag l p) n s) as [y|] eqn:E; [|reflexivity].
  apply match_at_tag_inv in E as (c & w & post & Hs & Hc & _).
  rewrite (H _ _ Hs) in Hc. discriminate.
Qed.

(** No occurrence of the tag, no match. *)
Lemma exec_tag_none (l : jsstring) (p : char -> bool) (s : jsstring) :
  (forall a c b, s = a ++ l ++ c :: b -> p c = false) ->
  exec (tag l p) s = None.
Proof.
  intros H. apply exec_at_none. intros a b Hs.
  apply match_at_tag_none. intros c t Hb. subst. now apply (H a c t).
Qed.

(** The leftmost occurrence of the tag is the match, and its word the
    capture. *)
Lemma exec_tag_first (l : jsstring) (p : char -> bool)
      (pre : jsstring) (c : char) (w post : jsstring) :
  span p (c :: w ++ post) = (c :: w, post) ->
  (forall a d b, pre ++ l ++ c :: w ++ post = a ++ l ++ d :: b -> p d = true ->
                 length pre <= length a) ->
  group 1 (exec (tag l p) (pre ++ l ++ c :: w ++ post)) = Some (c :: w).
Proof.
  intros Hspan Hfirst. unfold exec.
  rewrite (@exec_at_first (tag l p) pre (l ++ c :: w ++ post) 0
             (MState (0 + length pre + length l + length (c :: w)) post [(1, c :: w)])).
  - reflexivity.
  - rewrite match_at_tag, strip_app, Hspan. reflexivity.
  - intros a' b' Hs Hlt.
    destruct (match_at (tag l p) (0 + length a') b') as [y|] eqn:E; [|reflexivity].
    apply match_at_tag_inv in E as (d & w' & post' & Hb & Hd & _).
    subst b'. specialize (Hfirst _ _ _ Hs Hd). lia.
Qed.


(** ** A delimited pattern [/l(p+)d/] *)

Lemma firstn_run (c : char) (v post : jsstring) (a b : nat) :
  a = b + S (length v) -> firstn (a - b) (c :: v ++ post) = c :: v.
Proof.
  intros ->. replace (b + S (length v) - b) with (S (length v)) by lia.
  now rewrite firstn_cons, firstn_app, firstn_all, Nat.sub_diag, firstn_0, app_nil_r.
Qed.

Section Delimited.

Variables (l : jsstring) (p : char -> bool) (d : char).

Lemma match_at_delimited (n : nat) (s : jsstring) :
  match_at (delimited l p d) n s =
  match strip l s with
  | Some (c :: s') =>
      if p c then star p s' (S (n + length l)) [] (after_run l d n c s') else None
  | _ => None
  end.
Proof.
  unfold match_at, delimited. cbn -[Nat.sub firstn].
  destruct (strip l s) as [[|c s']|]; reflexivity.
Qed.

Lemma after_run_Some (n : nat) (c : char) (s' : jsstring) (m : nat)
      (t : jsstring) (y : mstate) :
  after_run l d n c s' (MState m t []) = Some y <->
  exists t', t = d :: t'
    /\ y = MState (m + 1) t' [(1, firstn (m - (n + length l)) (c :: s'))].
Proof.
  unfold after_run. cbn -[Nat.sub firstn].
  destruct t as [|e t]; cbn -[Nat.sub firstn].
  - split; [discriminate|]. intros (t' & H & _). discriminate.
  - unfold char_eqb. destruct (N.eqb_spec d e) as [<-|Hne].
    + split.
      * intros H. injection H as <-. now exists t.
      * intros (t' & H & ->). now injection H as <-.
    + split; [discriminate|]. intros (t' & H & _). injection H as H _.
      now elim Hne.
Qed.

Lemma match_at_delimited_inv (n : nat) (s : jsstring) (y : mstate) :
  match_at (delimited l p d) n s = Some y ->
  exists v post, s = l ++ v ++ d :: post /\ v <> [] /\ forallb p v = true
                 /\ caps y = [(1, v)].
Proof.
  rewrite match_at_delimited.
  destruct (strip l s) as [[|c s']|] eqn:Es; try discriminate.
  apply strip_Some in Es. subst s.
  destruct (p c) eqn:Ec; [|discriminate].
  intros H. apply star_inv in H as (v & post & -> & Hv & Hk).
  apply after_run_Some in Hk as (t' & -> & ->).
  exists (c :: v), t'. repeat split.
  - discriminate.
  - simpl. now rewrite Ec, Hv.
  - cbn -[Nat.sub firstn]. now rewrite firstn_run by lia.
Qed.

(** The run stops before the last delimiter it can reach. *)
Lemma match_at_delimited_last (n : nat) (v post : jsstring) :
  v <> [] -> forallb p v = true ->
  (forall v' post', v ++ d :: post = v' ++ d :: post' -> forallb p v' = true ->
                    length v' <= length v) ->
  match_at (delimited l p d) n (l ++ v ++ d :: post)
  = Some (MState (n + length l + length v + 1) post [(1, v)]).
Proof.
  intros Hne Hv Hlast. rewrite match_at_delimited, strip_app.
  destruct v as [|c v]; [now elim Hne|]. simpl in Hv.
  apply andb_true_iff in Hv as [Hc Hv]. cbn [app]. rewrite Hc.
  apply star_greedy.
  - exact Hv.
  - apply after_run_Some. exists post. split; [reflexivity|].
    rewrite firstn_run by lia. f_equal. simpl. lia.
  - intros v' post' Hs Hv' Hlt.
    destruct (after_run l d n c (v ++ d :: post)
                (MState (S (n + length l) + length v') post' [])) as [y|] eqn:E;
      [|reflexivity].
    apply after_run_Some in E as (t' & -> & _).
    assert (length (c :: v') <= length (c :: v)); [|simpl in *; lia].
    apply (Hlast (c :: v') t'); simpl; [now rewrite Hs|now rewrite Hc, Hv'].
Qed.

Lemma exec_delimited_inv (s v : jsstring) :
  group 1 (exec (delimited l p d) s) = Some v ->
  exists pre post, s = pre ++ l ++ v ++ d :: post /\ v <> []
                   /\ forallb p v = true.
Proof.
  unfold exec. destruct (exec_at (delimited l p d) 0 s) as [m|] eqn:E; [|discriminate].
  apply exec_at_inv in E as (a & b & y & -> & Hy & -> & _).
  apply match_at_delimited_inv in Hy as (v' & post & -> & Hne & Hv & Hcaps).
  simpl. rewrite Hcaps. simpl. intros H. injection H as <-.
  now exists a, post.
Qed.

Lemma exec_delimited_none (s : jsstring) :
  (forall pre post, s = pre ++ l ++ post -> ~ In d post) ->
  exec (delimited l p d) s = None.
Proof.
  intros H. apply exec_at_none. intros a b ->.
  destruct (match_at (delimited l p d) (0 + length a) b) as [y|] eqn:E; [|reflexivity].
  apply match_at_delimited_inv in E as (v & post & -> & _).
  elim (H a (v ++ d :: post) eq_refl). apply in_or_app. right. now left.
Qed.

Lemma exec_delimited_first (pre v post : jsstring) :
  (forall a b, pre ++ l ++ v ++ d :: post = a ++ l ++ b -> length pre <= length a) ->
  v <> [] -> forallb p v = true ->
  (forall v' post', v ++ d :: post = v' ++ d :: post' -> forallb p v' = true ->
                    length v' <= length v) ->
  group 1 (exec (delimited l p d) (pre ++ l ++ v ++ d :: post)) = Some v.
Proof.
  intros Hfirst Hne Hv Hlast. unfold exec.
  rewrite (@exec_at_first (delimited l p d) pre (l ++ v ++ d :: post) 0
             (MState (0 + length pre + length l + length v + 1) post [(1, v)])).
  - reflexivity.
  - now apply match_at_delimited_last.
  - intros a' b' Hs Hlt.
    destruct (match_at (delimited l p d) (0 + length a') b') as [y|] eqn:E; [|reflexivity].
    apply match_at_delimited_inv in E as (v' & post' & -> & _).
    specialize (Hfirst _ _ Hs). lia.
Qed.

End Delimited.

End PatternFacts.
(* ================================================================== *)
(** * The annotation decoder: properties *)
(* ================================================================== *)

Module CodeRendererFacts.
Import JS RegexFacts PatternFacts CodeRenderer.

(** ** The color pattern *)

Lemma ignore_case_hex (c : char) : ignore_case hex_upper c = hex_digit c.
Proof.
  unfold ignore_case, Canonicalize, hex_upper, hex_digit, in_range.
  destruct (N.leb_spec 97 c), (N.leb_spec c 122); cbn [andb];
    repeat match goal with
           | |- context [N.leb ?a ?b] => destruct (N.leb_spec a b)
           end; cbn; try reflexivity; lia.
Qed.

Lemma forallb_ignore_case_hex (ds : jsstring) :
  forallb (ignore_case hex_upper) ds = forallb hex_digit ds.
Proof.
  induction ds as [|c ds IH]; [reflexivity|].
  simpl. now rewrite ignore_case_hex, IH.
Qed.

(** [p{m}$]: exactly [m] characters of the class are left. *)
Lemma rep_eol (p : char -> bool) (k k0 : cont) (m : nat) :
  (forall y, k y = match rest y with [] => k0 y | _ :: _ => None end) ->
  forall s n cs,
    rep m p s n cs k
    = if Nat.eqb (length s) m && forallb p s
      then k0 (MState (n + m) [] cs) else None.
Proof.
  intros Hk. induction m as [|m IH]; intros s n cs; simpl.
  - rewrite Hk. destruct s; simpl; [now rewrite Nat.add_0_r|reflexivity].
  - destruct s as [|c s]; simpl; [reflexivity|].
    destruct (p c); simpl.
    + rewrite IH. now replace (S n + m) with (n + S m) by lia.
    + now rewrite andb_false_r.
Qed.

(** One alternative of the color pattern, [(^#p{m}$)], at index 0. *)
Lemma rmatch_anchored (i m : nat) (p : char -> bool) (t : jsstring) (k : cont) :
  rmatch (Group i (Seq Bol (Seq (Lit (js "#")) (Seq (Rep m p) Eol))))
         (MState 0 t []) k
  = match t with
    | c :: ds =>
        if N.eqb c 35 && Nat.eqb (length ds) m && forallb p ds
        then k (MState (1 + m) [] [(i, firstn (1 + m - 0) t)])
        else None
    | [] => None
    end.
Proof.
  destruct t as [|c ds]; [reflexivity|].
  cbn -[rep Nat.eqb char_eqb Nat.sub firstn Nat.add].
  change (0 =? 0) with true. cbn iota.
  unfold char_eqb. rewrite (N.eqb_sym 35 c).
  destruct (N.eqb c 35); [|reflexivity].
  cbn -[rep Nat.eqb Nat.sub firstn Nat.add].
  now erewrite rep_eol by (intros y; reflexivity).
Qed.

Lemma exec_at_color_later (s : jsstring) :
  forall n, exec_at re_color (S n) s = None.
Proof.
  induction s as [|c s IH]; intros n; rewrite exec_at_eq; [reflexivity|].
  cbn. apply IH.
Qed.

Lemma test_re_color (t : jsstring) : test re_color t = hex_color_literal t.
Proof.
  unfold test, exec. rewrite exec_at_eq.
  unfold match_at, re_color.
  change (rmatch (Alt ?a ?b) ?x ?k)
    with (match rmatch a x k with Some y => Some y | None => rmatch b x k end).
  rewrite !rmatch_anchored.
  destruct t as [|c ds]; [reflexivity|].
  rewrite !forallb_ignore_case_hex. unfold hex_color_literal.
  destruct (N.eqb c 35); cbn [andb].
  - destruct (forallb hex_digit ds); rewrite ?andb_true_r, ?andb_false_r.
    + destruct (Nat.eqb (length ds) 6) eqn:E6; [now rewrite orb_true_r|].
      destruct (Nat.eqb (length ds) 3) eqn:E3; [reflexivity|].
      now rewrite exec_at_color_later.
    + now rewrite exec_at_color_later.
  - now rewrite exec_at_color_later.
Qed.


(** ** Decoding never throws *)

Lemma Number_no_throw (s : jsstring) : Number s <> Throws.
Proof.
  unfold Number. destruct (trim s); [discriminate|].
  destruct (numeric_literal _); [|discriminate].
  destruct (integer_of _); [|discriminate].
  destruct (safe _); discriminate.
Qed.

Lemma mapM_no_throw (A B : Type) (f : A -> res B) (l : list A) :
  (forall a, f a <> Throws) -> mapM f l <> Throws.
Proof.
  intros Hf. induction l as [|a l IH]; simpl; [discriminate|].
  specialize (Hf a). destruct (f a); simpl; try congruence.
  destruct (mapM f l); simpl; congruence.
Qed.

Lemma lines_no_throw (p : Props) : lines p <> Throws.
Proof.
  unfold lines. destruct (group 1 (matchLines p)); [|discriminate].
  apply mapM_no_throw, Number_no_throw.
Qed.

(** Whatever the lines tag is, a click on the chip calls
    [updateScrollToIndex]: the handler has no guard. *)
Lemma handleChipClick_emits (p : Props) (ls : list number) :
  lines p = Val ls ->
  exists range, handleChipClick p = Val (updateScrollToIndex range).
Proof.
  intros H. unfold handleChipClick. rewrite H. simpl. now eexists.
Qed.

Lemma handleChipClick_no_throw (p : Props) : handleChipClick p <> Throws.
Proof.
  unfold handleChipClick. pose proof (lines_no_throw p) as H.
  destruct (lines p); simpl; congruence.
Qed.

(** A range computed from a lines tag that is absent or starts with
    something that is not a number has [NaN] as its start. *)
Lemma linesToUse_NaN_start (p : Props) (ls : list number) :
  lines p = Val ls ->
  ToNumber (nth_error ls 0) = NaN ->
  exists e, linesToUse p = Val (NaN, e).
Proof.
  intros H H0. unfold linesToUse. rewrite H. cbn [bind]. rewrite H0. now eexists.
Qed.

Section Render.

Variable attrs : Type.
Variable JSON_parse : jsstring -> option attrs.

(** C9.  A code element with exactly one plain-text child [t], no language
    tag and no type tag, and a blob of pass-through attributes that parses
    to [a]: when [t] is a 3- or 6-digit hex color literal, in either case
    and with nothing around it, the element rendered is the color swatch,
    a preview of the color [t] followed by the inline code that carries
    the attributes [a], the class and the children unchanged; otherwise it
    is the plain code with the same attributes, class and children. *)
Theorem color_swatch_or_plain_code (p : Props) (t : jsstring) (a : attrs) :
  children p = [Text t] ->
  matchLang p = None ->
  matchType p = None ->
  JSON_parse (propsJSON p) = Some a ->
  CodeRenderer JSON_parse p
  = Val (if hex_color_literal t
         then ColorSwatch t {| code_spread := a;
                               code_className := className p;
                               code_children := [Text t] |}
         else PlainCode {| code_spread := a;
                           code_className := className p;
                           code_children := [Text t] |}).
Proof.
  intros Hch Hlang Htype Hparse.
  unfold CodeRenderer, colorPreview, plain_code.
  rewrite Hlang, Htype, Hparse, Hch. cbn [group truthy_string orb andb nth_error length].
  rewrite andb_false_r, test_re_color. cbn [Nat.eqb andb].
  destruct t as [|c ds]; [reflexivity|]. cbn [truthy_string andb].
  now destruct (hex_color_literal (c :: ds)).
Qed.

(** C7.  The class string ["language-type:Quoted path:a.py, lines:5"],
    with [hideCode = true], [inline = false] and a single plain-text child:
    the file chip is rendered, named by the path [a.py], with the
    zero-indexed line range [[4, 4]], and a click on it calls
    [updateScrollToIndex("4_4")].  Without a path tag the name is the empty
    string. *)
Theorem file_chip_for_quoted_path (content repo blob : jsstring) :
  CodeRenderer JSON_parse
    {| children := [Text content]; repoName := repo; hideCode := Some true;
       className := Some (js "language-type:Quoted path:a.py, lines:5");
       propsJSON := blob; inline := Some false |}
  = Val (FileChip (js "a.py") (js "a.py") false
                  (updateScrollToIndex (js "4_4")) (Int 4, Int 4))
  /\
  CodeRenderer JSON_parse
    {| children := [Text content]; repoName := repo; hideCode := Some true;
       className := Some (js "language-type:Quoted lines:5");
       propsJSON := blob; inline := Some false |}
  = Val (FileChip [] [] false
                  (updateScrollToIndex (js "4_4")) (Int 4, Int 4)).
Proof. split; vm_compute; reflexivity. Qed.

End Render.

(** C8.  The class string ["lang:rust path:src/main.rs, lines:10-20"]
    decodes to the language [rust], the path [src/main.rs] and the
    zero-indexed inclusive line range [[9, 19]]: one is subtracted from
    both 1-indexed bounds.  With the single bound [lines:10] the end is the
    start: [[9, 9]]. *)
Theorem decode_lang_path_lines
  (content : list ReactNode) (repo blob : jsstring) (hide inl : option bool) :
  let p := {| children := content; repoName := repo; hideCode := hide;
              className := Some (js "lang:rust path:src/main.rs, lines:10-20");
              propsJSON := blob; inline := inl |} in
  let q := {| children := content; repoName := repo; hideCode := hide;
              className := Some (js "lang:rust path:src/main.rs, lines:10");
              propsJSON := blob; inline := inl |} in
  or_string (group 1 (matchLang p)) [] = js "rust"
  /\ group 1 (matchPath p) = Some (js "src/main.rs")
  /\ lines p = Val [Int 10; Int 20]
  /\ linesToUse p = Val (Int 9, Int 19)
  /\ lines q = Val [Int 10]
  /\ linesToUse q = Val (Int 9, Int 9).
Proof. repeat split; vm_compute; reflexivity. Qed.

(** C2, on the code.  Without a lines tag, and with a lines tag that is
    not a number, the line range handed to the file chip is
    [[NaN, NaN]], not an absent range. *)
Theorem linesToUse_NaN :
  lines (Samples.code_props "language-type:Quoted path:a.py," "x" (Some true) None)
    = Val []
  /\ linesToUse (Samples.code_props "language-type:Quoted path:a.py," "x" (Some true) None)
    = Val (NaN, NaN)
  /\ lines (Samples.code_props "language-type:Quoted path:a.py, lines:abc" "x" (Some true) None)
    = Val [NaN]
  /\ linesToUse (Samples.code_props "language-type:Quoted path:a.py, lines:abc" "x" (Some true) None)
    = Val (NaN, NaN)
  /\ CodeRenderer Samples.parse_empty
       (Samples.code_props "language-type:Quoted path:a.py," "x" (Some true) None)
    = Val (FileChip (js "a.py") (js "a.py") false
                    (updateScrollToIndex (js "NaN_NaN")) (NaN, NaN)).
Proof. repeat split; vm_compute; reflexivity. Qed.

(** C3, on the code.  With a lines tag that is not a number nothing is
    thrown, and the start line of the source quote is absent; but the file
    chip keeps its click handler, and a click calls
    [updateScrollToIndex("NaN_NaN")]. *)
Theorem handleChipClick_NaN :
  handleChipClick
    (Samples.code_props "language-type:Quoted path:a.py, lines:abc" "x" (Some true) None)
    = Val (updateScrollToIndex (js "NaN_NaN"))
  /\ CodeRenderer Samples.parse_empty
       (Samples.code_props "language-type:Quoted path:a.py, lines:abc" "x" (Some true) None)
    = Val (FileChip (js "a.py") (js "a.py") false
                    (updateScrollToIndex (js "NaN_NaN")) (NaN, NaN))
  /\ CodeRenderer Samples.parse_empty
       (Samples.code_props "language-type:Quoted path:a.py, lines:abc" "x" None None)
    = Val (CodeWithBreadcrumbs (js "x") (js "type") (js "a.py") None (js "bloop")).
Proof. repeat split; vm_compute; reflexivity. Qed.

(** ["#FFF"] is rendered with a swatch, ["#GGGGGG"] as plain code. *)
Lemma color_swatch_or_plain_code_witness :
  CodeRenderer Samples.parse_empty (Samples.inline_code "#FFF")
  = Val (ColorSwatch (js "#FFF")
           {| code_spread := []; code_className := None;
              code_children := [Text (js "#FFF")] |})
  /\
  CodeRenderer Samples.parse_empty (Samples.inline_code "#GGGGGG")
  = Val (PlainCode
           {| code_spread := []; code_className := None;
              code_children := [Text (js "#GGGGGG")] |}).
Proof.
  split.
  - exact (@color_swatch_or_plain_code _ Samples.parse_empty
             (Samples.inline_code "#FFF") (js "#FFF") []
             eq_refl eq_refl eq_refl eq_refl).
  - exact (@color_swatch_or_plain_code _ Samples.parse_empty
             (Samples.inline_code "#GGGGGG") (js "#GGGGGG") []
             eq_refl eq_refl eq_refl eq_refl).
Defined.

End CodeRendererFacts.
(** * The path tag and the language fallback *)

Module TagFacts.
Import JS RegexFacts PatternFacts CodeRenderer.

Lemma span_prefix (p : char -> bool) (w t : jsstring) :
  forallb p w = true -> fst (span p (w ++ t)) = w ++ fst (span p t).
Proof.
  induction w as [|c w IH]; [reflexivity|]. simpl.
  intros H. apply andb_true_iff in H as [Hc Hw]. rewrite Hc.
  specialize (IH Hw). destruct (span p (w ++ t)) as [a b]. simpl in *.
  now rewrite IH.
Qed.

(** A longer run that also ends before a delimiter passes over the
    delimiter that ends the shorter one. *)
Lemma run_past_delimiter (p : char -> bool) (d : char)
      (v post v' post' : jsstring) :
  v ++ d :: post = v' ++ d :: post' ->
  forallb p v' = true ->
  length v < length v' ->
  In d (fst (span p post)).
Proof.
  intros Hs Hv' Hlt.
  apply app_eq_app in Hs as [w [[-> Hw]|[-> Hw]]].
  - rewrite length_app in Hlt. lia.
  - destruct w as [|e w]; [rewrite length_app in Hlt; simpl in Hlt; lia|].
    injection Hw as <- ->.
    rewrite forallb_app in Hv'. apply andb_true_iff in Hv' as [_ Hw].
    simpl in Hw. apply andb_true_iff in Hw as [Hd Hw].
    rewrite span_prefix by exact Hw. apply in_or_app. right.
    simpl. rewrite Hd. destruct (span p post'). now left.
Qed.

(** C6, amended.  The path tag is matched only with a non-empty value
    that is ended by a comma on its line: a decoded path [v] is non-empty
    text without line terminators that stands in the class string between
    [path:] and a comma; a class string with no comma anywhere after a
    [path:] decodes to an absent path; and when the first [path:] of the
    class string is followed by a non-empty [v] without line terminators
    and a comma that is the last one on its line, the decoded path is
    [v]. *)
Theorem matchPath_comma_terminated (p : Props) :
  (forall v, group 1 (matchPath p) = Some v ->
     exists pre post,
       class_string p = pre ++ js "path:" ++ v ++ comma :: post
       /\ v <> [] /\ forallb dot v = true)
  /\
  ((forall pre post, class_string p = pre ++ js "path:" ++ post -> ~ In comma post) ->
     matchPath p = None)
  /\
  (forall pre v post,
     class_string p = pre ++ js "path:" ++ v ++ comma :: post ->
     (forall a b, class_string p = a ++ js "path:" ++ b -> length pre <= length a) ->
     v <> [] ->
     forallb dot v = true ->
     ~ In comma (fst (span dot post)) ->
     group 1 (matchPath p) = Some v).
Proof.
  unfold matchPath, re_path. repeat split.
  - intros v Hv. now apply exec_delimited_inv in Hv.
  - now apply exec_delimited_none.
  - intros pre v post Hcls Hfirst Hne Hv Hlast. rewrite Hcls in *.
    apply exec_delimited_first; try assumption.
    intros v' post' Hs Hv'.
    destruct (Nat.le_gt_cases (length v') (length v)) as [Hle|Hgt]; [exact Hle|].
    elim Hlast. eapply run_past_delimiter; eassumption.
Qed.


(** Decides a statement about all the places [a] at which a literal
    occurs in a given class string, [H : cls = a ++ l ++ b], by going
    through the places one by one. *)
Ltac scan_from H a tac :=
  repeat first
    [ solve [tac]
    | destruct a as [|? a]; simpl in H;
      [ first [discriminate H | solve [tac]]
      | first [discriminate H | injection H as _ H] ] ].

Lemma matchPath_comma_terminated_witness :
  group 1 (matchPath
             (Samples.code_props "language-type:Quoted path:a.py, lines:5" "x"
                                 (Some true) None))
  = Some (js "a.py")
  /\
  matchPath (Samples.code_props "language-type:Quoted path:a.py lines:5" "x"
                                (Some true) None)
  = None.
Proof.
  split.
  - destruct (matchPath_comma_terminated
                (Samples.code_props "language-type:Quoted path:a.py, lines:5" "x"
                                    (Some true) None)) as (_ & _ & Hvalue).
    apply (Hvalue (js "language-type:Quoted ") (js "a.py") (js " lines:5")).
    + reflexivity.
    + intros a b H. vm_compute in H. scan_from H a ltac:(simpl; lia).
    + discriminate.
    + reflexivity.
    + vm_compute. intuition discriminate.
  - destruct (matchPath_comma_terminated
                (Samples.code_props "language-type:Quoted path:a.py lines:5" "x"
                                    (Some true) None)) as (_ & Hnone & _).
    apply Hnone.
    intros pre post H. vm_compute in H.
    scan_from H pre
      ltac:(repeat (injection H as H); subst post; vm_compute; intuition discriminate).
Defined.

(** C6 as stated fails.  A comma is present after [path:] and nothing is
    decoded, when the value is empty and when a line terminator stands
    before the comma; and with several commas the decoded path is not the
    text up to the comma that ends the value but runs to the last comma of
    the line. *)
Lemma matchPath_comma_counterexample :
  class_string (Samples.code_props "path:, lines:5" "x" None None)
    = js "path:" ++ [] ++ comma :: js " lines:5"
  /\ matchPath (Samples.code_props "path:, lines:5" "x" None None) = None
  /\ exec re_path (js "path:a" ++ [10%N] ++ js "b,") = None
  /\ class_string
       (Samples.code_props "language-type:Quoted,path:src/main.rs,lang:Rust,lines:1"
                           "x" None None)
     = js "language-type:Quoted," ++ js "path:" ++ js "src/main.rs"
       ++ comma :: js "lang:Rust,lines:1"
  /\ group 1 (matchPath
       (Samples.code_props "language-type:Quoted,path:src/main.rs,lang:Rust,lines:1"
                           "x" None None))
     = Some (js "src/main.rs,lang:Rust")
  /\ js "src/main.rs,lang:Rust" <> js "src/main.rs".
Proof.
  repeat split; try (vm_compute; reflexivity). vm_compute. discriminate.
Qed.

Section Language.

Variable attrs : Type.
Variable JSON_parse : jsstring -> option attrs.

(** C10, amended.  A class string with a type tag [language-type:<word>],
    without any [lang:<word>], and in which no [language-<word>] starts
    before the type tag: the decoded language is ["type"], and this is
    the language the syntax block and the source quote are given. *)
Theorem language_of_type_tag (p : Props) (pre : jsstring) (c : char) (tl : jsstring) :
  class_string p = pre ++ js "language-type:" ++ c :: tl ->
  word c = true ->
  (forall a d b, class_string p = a ++ js "lang:" ++ d :: b -> word d = false) ->
  (forall a d b, class_string p = a ++ js "language-" ++ d :: b -> word d = true ->
                 length pre <= length a) ->
  or_string (group 1 (matchLang p)) [] = js "type"
  /\
  (forall t, truthy (inline p) = false ->
             nth_error (children p) 0 = Some (Text t) ->
     (is_Quoted (group 1 (matchType p)) = false ->
      CodeRenderer JSON_parse p = Val (NewCode (code p) (js "type")))
     /\
     (is_Quoted (group 1 (matchType p)) = true ->
      truthy (hideCode p) = false ->
      CodeRenderer JSON_parse p
      = (start <- startLine p ;;
         Val (CodeWithBreadcrumbs (code p) (js "type")
                                  (or_string (group 1 (matchPath p)) [])
                                  start (repoName p))))).
Proof.
  intros Hcls Hc Hlang Hfirst.
  assert (Hgroup : group 1 (matchLang p) = Some (js "type")).
  { unfold matchLang, re_lang, re_language.
    rewrite (@exec_tag_none (js "lang:") word (class_string p) Hlang).
    rewrite Hcls in *.
    change (js "language-type:" ++ c :: tl)
      with (js "language-" ++ 116%N :: js "ype" ++ 58%N :: c :: tl) in *.
    apply (@exec_tag_first (js "language-") word).
    - reflexivity.
    - exact Hfirst. }
  split; [now rewrite Hgroup|].
  intros t Hinline Hchild. unfold CodeRenderer.
  rewrite Hinline, Hchild, Hgroup. cbn [negb andb is_string truthy_string js].
  rewrite orb_true_r. cbn [andb].
  split.
  - now intros ->.
  - now intros -> ->.
Qed.

End Language.

(** The class string the markdown renderer gives to a fence whose info
    string starts with [type:Quoted]. *)
Lemma language_of_type_tag_witness :
  or_string
    (group 1 (matchLang (Samples.code_props "language-type:Quoted" "x" None None))) []
  = js "type".
Proof.
  apply (@language_of_type_tag unit (fun _ => None)
           (Samples.code_props "language-type:Quoted" "x" None None)
           [] 81%N (js "uoted")).
  - reflexivity.
  - reflexivity.
  - intros a d b H. vm_compute in H. scan_from H a ltac:(fail).
  - intros a d b _ _. simpl. lia.
Defined.

(** C10 as stated fails: with a [language-<word>] before the type tag
    the decoded language is that word. *)
Lemma language_of_type_tag_counterexample :
  let p := Samples.code_props "language-js language-type:Quoted" "x" None None in
  group 1 (matchType p) = Some (js "Quoted")
  /\ exec re_lang (class_string p) = None
  /\ or_string (group 1 (matchLang p)) [] = js "js"
  /\ or_string (group 1 (matchLang p)) [] <> js "type"
  /\ CodeRenderer Samples.parse_empty p
     = Val (CodeWithBreadcrumbs (js "x") (js "js") [] None (js "bloop")).
Proof.
  repeat split; try (vm_compute; reflexivity). vm_compute. discriminate.
Qed.

End TagFacts.

(* ================================================================== *)
(** * The transcript view: further properties *)
(* ================================================================== *)

Module TranscriptProperties.
Import JS general Conversation Notions.

Section Projection.

Variables LoadingStep Results : Type.
Implicit Types (p : Props LoadingStep Results) (m : ChatMessage LoadingStep Results).

Lemma map_map_from (A B C : Type) (g : B -> C) (f : Z -> A -> B) (a : list A) :
  forall i, map g (map_from f i a) = map_from (fun j x => g (f j x)) i a.
Proof.
  induction a as [|x a IH]; intros i; simpl; [reflexivity|]. now rewrite IH.
Qed.

Lemma map_from_constant (A B : Type) (g : A -> B) (a : list A) :
  forall i, map_from (fun _ x => g x) i a = map g a.
Proof.
  induction a as [|x a IH]; intros i; simpl; [reflexivity|]. now rewrite IH.
Qed.

Lemma map_from_ext (A B : Type) (f g : Z -> A -> B) (a : list A) :
  (forall j x, f j x = g j x) -> forall i, map_from f i a = map_from g i a.
Proof.
  intros H. induction a as [|x a IH]; intros i; simpl; [reflexivity|].
  now rewrite H, IH.
Qed.

Lemma map_from_index (A : Type) (a : list A) :
  forall i, map_from (fun j _ => j) i a = indices i (length a).
Proof.
  induction a as [|x a IH]; intros i; simpl; [reflexivity|]. now rewrite IH.
Qed.

(** X1.  The view renders one [Message] per turn, in the order of the
    transcript: the authors and the texts are those of the turns, and the
    [i] and the [key] of the [Message]s count 0, 1, ..., N - 1. *)
Theorem Conversation_in_order p :
  length (Conversation p) = length (conversation p)
  /\ map (@Message.author _ _) (Conversation p)
     = map (@author _ _) (conversation p)
  /\ map (@Message.message _ _) (Conversation p) = map text_of (conversation p)
  /\ map (@Message.i _ _) (Conversation p) = indices 0 (length (conversation p))
  /\ map (@Message.key _ _) (Conversation p) = indices 0 (length (conversation p)).
Proof.
  unfold Conversation. repeat split.
  - rewrite <- (length_map (@Message.author _ _)), map_map_from. cbn [message_props Message.author].
    now rewrite map_from_constant, length_map.
  - rewrite map_map_from. cbn [message_props Message.author].
    apply map_from_constant.
  - rewrite map_map_from, <- (map_from_constant text_of (conversation p) 0).
    apply map_from_ext. now intros j [t|s].
  - rewrite map_map_from. cbn [message_props Message.i]. apply map_from_index.
  - rewrite map_map_from. cbn [message_props Message.key]. apply map_from_index.
Qed.

(** X2.  At most one [Message] of a transcript shows the inline
    feedback. *)
Theorem showInlineFeedback_unique p (i j : Z)
        (pi pj : Message.Props LoadingStep Results) :
  get (Conversation p) i = Some pi ->
  get (Conversation p) j = Some pj ->
  Message.showInlineFeedback pi = true ->
  Message.showInlineFeedback pj = true ->
  i = j.
Proof.
  assert (Hlast : forall k pk, get (Conversation p) k = Some pk ->
                    Message.showInlineFeedback pk = true ->
                    k = (Z.of_nat (length (conversation p)) - 1)%Z).
  { intros k pk. rewrite ConversationFacts.Conversation_get.
    destruct (get (conversation p) k) as [m|]; [|discriminate].
    simpl. intros H. injection H as <-. destruct m as [t|s]; simpl; [discriminate|].
    rewrite !andb_true_iff, Z.eqb_eq. tauto. }
  intros Hi Hj Ti Tj. rewrite (Hlast _ _ Hi Ti), (Hlast _ _ Hj Tj). reflexivity.
Qed.

(** X3.  The [queryId] handed to the [Message] of a User turn is never
    the empty string. *)
Theorem user_queryId_not_empty p (i : Z) (t : jsstring)
        (props : Message.Props LoadingStep Results) :
  get (conversation p) i = Some (FromUser t) ->
  get (Conversation p) i = Some props ->
  Message.queryId props <> [].
Proof.
  intros Hm. rewrite ConversationFacts.Conversation_get, Hm. simpl.
  intros H. injection H as <-. simpl.
  destruct (previous_queryId (conversation p) i) as [[|c s]|]; discriminate.
Qed.

End Projection.

(** Two looks at the last, completed answer. *)
Lemma showInlineFeedback_unique_witness :
  let p := Samples.view [Samples.question; Samples.answer Samples.some_uuid] in
  Message.showInlineFeedback (message_props p 1 (Samples.answer Samples.some_uuid)) = true
  /\ (1 = 2 - 1)%Z.
Proof.
  split; [reflexivity|].
  exact (@showInlineFeedback_unique unit unit
           (Samples.view [Samples.question; Samples.answer Samples.some_uuid])
           1 (2 - 1) _ _ eq_refl eq_refl eq_refl eq_refl).
Defined.

(** The question after an answer without an identifier. *)
Lemma user_queryId_not_empty_witness :
  let p := Samples.view [Samples.answer []; Samples.question] in
  Message.queryId (message_props p 1 Samples.question) <> [].
Proof.
  exact (@user_queryId_not_empty unit unit
           (Samples.view [Samples.answer []; Samples.question]) 1
           (js "Where is main?") _ eq_refl eq_refl).
Defined.

End TranscriptProperties.

(* ================================================================== *)
(** * The scroll-follow controller: further properties *)
(* ================================================================== *)

Module FollowProperties.
Import JS Conversation Notions.

Lemma run_append (s : bool) (hs hs' : list happening) :
  run s (hs ++ hs')
  = (fst (run (fst (run s hs)) hs'),
     snd (run s hs) ++ snd (run (fst (run s hs)) hs')).
Proof.
  revert s. induction hs as [|h hs IH]; intros s.
  - simpl. now destruct (run s hs').
  - simpl. destruct (step s h) as [s1 o1]. rewrite IH.
    destruct (run s1 hs) as [s2 o2]. simpl. now rewrite app_assoc.
Qed.

(** X4.  The flag has no memory: after a scroll event on an attached
    container it is [scrollTop < scrollHeight - clientHeight] of that
    event, whatever the state and the history before. *)
Theorem userScrolledUp_last_scroll
        (s : bool) (hs : list happening) (el : container) :
  fst (run s (hs ++ [onScroll (Some el)]))
  = Qltb (scrollTop el) (inject_Z (scrollHeight el - clientHeight el)).
Proof. now rewrite run_append. Qed.

(** X7.  With no container attached nothing happens: the flag keeps its
    value and no [scrollTo] is issued. *)
Theorem detached_is_inert (s : bool) (hs : list happening) :
  Forall detached hs -> run s hs = (s, []).
Proof.
  induction 1 as [|h hs Hh _ IH]; [reflexivity|].
  simpl. destruct h as [[el|]|[el|]]; simpl in *; try contradiction.
  - now rewrite IH.
  - destruct s; simpl; now rewrite IH.
Qed.

(** A view that is not laid out yet. *)
Lemma detached_is_inert_witness :
  run mount [render None; onScroll None; render None] = (false, []).
Proof.
  apply (@detached_is_inert mount). repeat constructor.
Defined.

End FollowProperties.

(* ================================================================== *)
(** * The annotation decoder: further properties *)
(* ================================================================== *)

Module DecoderProperties.
Import JS RegexFacts PatternFacts CodeRenderer CodeRendererFacts DecoderNotions.

(** ** The runtime on numerals *)

Lemma digit_not_white_space (c : char) : digit c = true -> white_space c = false.
Proof.
  unfold digit, white_space, in_range. rewrite andb_true_iff, !N.leb_le.
  intros [H1 H2]. cbn [existsb].
  repeat match goal with
         | |- context [N.eqb c ?k] =>
             replace (N.eqb c k) with false by (symmetry; apply N.eqb_neq; lia)
         end.
  cbn [orb]. apply andb_false_iff. left. apply N.leb_gt. lia.
Qed.

Lemma drop_while_head (p : char -> bool) (c : char) (s : jsstring) :
  p c = false -> drop_while p (c :: s) = c :: s.
Proof. intros H. simpl. now rewrite H. Qed.

Lemma forallb_rev (p : char -> bool) (s : jsstring) :
  forallb p (rev s) = forallb p s.
Proof.
  induction s as [|c s IH]; [reflexivity|]. simpl.
  rewrite forallb_app, IH. simpl. now rewrite andb_true_r, andb_comm.
Qed.

Lemma trim_numeral (ds : jsstring) : numeral ds = true -> trim ds = ds.
Proof.
  destruct ds as [|c ds]; [discriminate|]. unfold numeral. intros H.
  unfold trim. assert (Hc : digit c = true) by (simpl in H; now apply andb_true_iff in H).
  rewrite drop_while_head by now apply digit_not_white_space.
  rewrite <- forallb_rev in H.
  destruct (rev (c :: ds)) as [|e r] eqn:Er.
  - apply (f_equal (@length _)) in Er. rewrite length_rev in Er. discriminate.
  - simpl in H. apply andb_true_iff in H as [He _].
    rewrite drop_while_head by now apply digit_not_white_space.
    now rewrite <- Er, rev_involutive.
Qed.

Lemma span_all (p : char -> bool) (s : jsstring) :
  forallb p s = true -> span p s = (s, []).
Proof.
  induction s as [|c s IH]; [reflexivity|]. simpl.
  intros H. apply andb_true_iff in H as [Hc Hs]. now rewrite Hc, IH.
Qed.

(** [Number] reads a numeral as its value. *)
Lemma Number_numeral (ds : jsstring) :
  numeral ds = true ->
  Number ds = if safe (value ds) then Val (Int (value ds)) else Beyond.
Proof.
  intros H. unfold Number. rewrite (trim_numeral _ H).
  destruct ds as [|c ds]; [discriminate|]. unfold numeral in H.
  assert (Hc : digit c = true) by (simpl in H; now apply andb_true_iff in H).
  assert (Hr : (48 <= c <= 57)%N).
  { unfold digit, in_range in Hc. now rewrite andb_true_iff, !N.leb_le in Hc. }
  assert (Hnd : non_decimal (c :: ds) = None).
  { unfold non_decimal. destruct ds as [|x [|y ds]]; try reflexivity.
    - assert (Hx : (48 <= x <= 57)%N).
      { simpl in H. rewrite !andb_true_iff in H. destruct H as (_ & Hx & _).
        unfold digit, in_range in Hx. now rewrite andb_true_iff, !N.leb_le in Hx. }
      repeat match goal with
             | |- context [N.eqb x ?k] =>
                 replace (N.eqb x k) with false by (symmetry; apply N.eqb_neq; lia)
             end. reflexivity.
    - assert (Hx : (48 <= x <= 57)%N).
      { simpl in H. rewrite !andb_true_iff in H. destruct H as (_ & Hx & _).
        unfold digit, in_range in Hx. now rewrite andb_true_iff, !N.leb_le in Hx. }
      repeat match goal with
             | |- context [N.eqb x ?k] =>
                 replace (N.eqb x k) with false by (symmetry; apply N.eqb_neq; lia)
             end. reflexivity. }
  unfold numeric_literal. rewrite Hnd.
  replace (N.eqb c 43) with false by (symmetry; apply N.eqb_neq; lia).
  replace (N.eqb c 45) with false by (symmetry; apply N.eqb_neq; lia).
  unfold unsigned_decimal.
  change (js "Infinity") with (73%N :: js "nfinity").
  cbn [jsstring_eqb]. unfold char_eqb at 1.
  replace (N.eqb c 73) with false by (symmetry; apply N.eqb_neq; lia).
  cbn [andb]. rewrite (span_all _ _ H). cbn [exponent_part app].
  rewrite app_nil_r. cbn [length Z.of_nat Z.sub Z.opp Z.add integer_of].
  unfold value.
  destruct (Z.eqb_spec (digits_value 10 (c :: ds)) 0) as [E|E].
  - now rewrite E.
  - cbn [Z.leb Z.compare]. now rewrite Z.pow_0_r, Z.mul_1_r.
Qed.


(** ** [split] around a separator *)

Lemma split_no_separator (sep : char) (s : jsstring) :
  forallb (fun c => negb (char_eqb c sep)) s = true -> split sep s = [s].
Proof.
  induction s as [|c s IH]; [reflexivity|]. simpl.
  intros H. apply andb_true_iff in H as [Hc Hs].
  apply negb_true_iff in Hc. now rewrite Hc, IH.
Qed.

Lemma split_at_separator (sep : char) (a b : jsstring) :
  forallb (fun c => negb (char_eqb c sep)) a = true ->
  split sep (a ++ sep :: b) = a :: split sep b.
Proof.
  induction a as [|c a IH]; simpl.
  - intros _. unfold char_eqb. now rewrite N.eqb_refl.
  - intros H. apply andb_true_iff in H as [Hc Ha].
    apply negb_true_iff in Hc. now rewrite Hc, IH.
Qed.

Lemma digits_without_dash (ds : jsstring) :
  forallb digit ds = true ->
  forallb (fun c => negb (char_eqb c dash)) ds = true.
Proof.
  intros H. rewrite forallb_forall in *. intros c Hin. specialize (H c Hin).
  unfold digit, in_range in H. rewrite andb_true_iff, !N.leb_le in H.
  apply negb_true_iff. unfold char_eqb, dash. apply N.eqb_neq. lia.
Qed.

Lemma digits_on_the_line (ds : jsstring) :
  forallb digit ds = true -> forallb dot ds = true.
Proof.
  intros H. rewrite forallb_forall in *. intros c Hin. specialize (H c Hin).
  unfold digit, in_range in H. rewrite andb_true_iff, !N.leb_le in H.
  unfold dot, line_terminator.
  repeat match goal with
         | |- context [N.eqb c ?k] =>
             replace (N.eqb c k) with false by (symmetry; apply N.eqb_neq; lia)
         end. reflexivity.
Qed.

Lemma numeral_digits (ds : jsstring) : numeral ds = true -> forallb digit ds = true.
Proof. destruct ds; [discriminate|]. exact (fun H => H). Qed.

Lemma numeral_head (ds : jsstring) :
  numeral ds = true -> exists c w, ds = c :: w.
Proof. destruct ds as [|c w]; [discriminate|]. now exists c, w. Qed.

(** The value of the lines tag at the end of a class string. *)
Lemma matchLines_last_tag (p : Props) (pre v : jsstring) :
  class_string p = pre ++ js "lines:" ++ v ->
  (forall x y, class_string p = x ++ js "lines:" ++ y -> length pre <= length x) ->
  v <> [] -> forallb dot v = true ->
  group 1 (matchLines p) = Some v.
Proof.
  intros Hcls Hfirst Hne Hv. unfold matchLines, re_lines. rewrite Hcls in *.
  destruct v as [|c w]; [now elim Hne|].
  rewrite <- (app_nil_r w) at 1.
  apply (@exec_tag_first (js "lines:") dot pre c w []).
  - rewrite app_nil_r. now apply span_all.
  - intros a d b Hs _. rewrite app_nil_r in Hs. exact (Hfirst _ _ Hs).
Qed.

(** X9.  A class string that ends with its first lines tag, the tag
    holding one numeral [a] or two numerals [a-b] of safe integers: the
    decoded bounds are the values of the numerals, the zero-indexed range
    is one less on both sides with the end defaulting to the start, a
    click on the chip sends that range as ["<start>_<end>"], and the start
    line of the source quote is the start of the range, or absent when
    [a] is zero. *)
Theorem lines_of_numerals (p : Props) (pre a : jsstring) (b : option jsstring) :
  class_string p = pre ++ lines_tag a b ->
  (forall x y, class_string p = x ++ js "lines:" ++ y -> length pre <= length x) ->
  numeral a = true -> safe (value a) = true ->
  (forall d, b = Some d -> numeral d = true /\ safe (value d) = true) ->
  let lo := (value a - 1)%Z in
  let hi := (match b with Some d => value d | None => value a end - 1)%Z in
  lines p = Val (Int (value a)
                 :: match b with Some d => [Int (value d)] | None => [] end)
  /\ linesToUse p = Val (Int lo, Int hi)
  /\ handleChipClick p
     = Val (updateScrollToIndex (toString (Int lo) ++ js "_" ++ toString (Int hi)))
  /\ startLine p
     = Val (if (value a =? 0)%Z then None else Some (Int lo)).
Proof.
  intros Hcls Hfirst Ha Hsa Hb lo hi.
  assert (Hlines : lines p = Val (Int (value a)
                     :: match b with Some d => [Int (value d)] | None => [] end)).
  { unfold lines, lines_tag in *.
    rewrite (@matchLines_last_tag p pre _ Hcls Hfirst).
    - destruct b as [d|].
      + destruct (Hb d eq_refl) as [Hd Hsd].
        rewrite split_at_separator
          by now apply digits_without_dash, numeral_digits.
        rewrite split_no_separator
          by now apply digits_without_dash, numeral_digits.
        cbn [mapM]. rewrite !Number_numeral, Hsa, Hsd by assumption. reflexivity.
      + rewrite app_nil_r, split_no_separator
          by now apply digits_without_dash, numeral_digits.
        cbn [mapM]. rewrite Number_numeral, Hsa by assumption. reflexivity.
    - destruct (numeral_head _ Ha) as (c & w & ->). discriminate.
    - rewrite forallb_app. apply andb_true_iff. split.
      + now apply digits_on_the_line, numeral_digits.
      + destruct b as [d|]; [|reflexivity]. destruct (Hb d eq_refl) as [Hd _].
        simpl. now apply digits_on_the_line, numeral_digits. }
  unfold linesToUse, handleChipClick, startLine. rewrite Hlines.
  subst lo hi. destruct b as [d|]; cbn; repeat split;
    now destruct (value a).
Qed.


(** ** The final newline of the code *)

Lemma match_at_final_newline (n : nat) (b : jsstring) :
  match_at re_final_newline n b
  = match b with
    | [c] => if char_eqb 10 c then Some (MState (n + 1) [] []) else None
    | _ => None
    end.
Proof.
  unfold match_at, re_final_newline. cbn -[char_eqb Nat.add].
  destruct b as [|c [|d b]]; cbn -[char_eqb Nat.add]; try reflexivity.
  - now destruct (char_eqb 10 c).
  - now destruct (char_eqb 10 c).
Qed.

(** X11.  The code handed to the syntax block and to the source quote is
    the first child without one final newline: a text that ends with a
    newline loses that newline and nothing else, any other text is kept
    as it is. *)
Theorem code_without_final_newline (p : Props) (t : jsstring) :
  nth_error (children p) 0 = Some (Text t) ->
  (forall t' : jsstring, t = t' ++ [10%N] -> code p = t')
  /\ ((forall t' : jsstring, t <> t' ++ [10%N]) -> code p = t).
Proof.
  intros Hch. unfold code, replace, exec. rewrite Hch. split.
  - intros t' ->.
    rewrite (@exec_at_first re_final_newline t' [10%N] 0 (MState (0 + length t' + 1) [] [])).
    + cbn [index last pos Nat.add].
      rewrite firstn_app, firstn_all, Nat.sub_diag, firstn_0.
      rewrite skipn_all2 by (rewrite length_app; simpl; lia).
      now rewrite !app_nil_r.
    + now rewrite match_at_final_newline.
    + intros a' b' Hs Hlt. rewrite match_at_final_newline.
      destruct b' as [|c [|d b']]; try reflexivity.
      apply (f_equal (@length _)) in Hs. rewrite !length_app in Hs. simpl in Hs. lia.
  - intros Hno. rewrite exec_at_none; [reflexivity|].
    intros a b Hs. rewrite match_at_final_newline.
    destruct b as [|c [|d b]]; try reflexivity.
    unfold char_eqb. destruct (N.eqb_spec 10 c) as [<-|]; [|reflexivity].
    now elim (Hno a).
Qed.

(** ** The color preview *)

(** X12.  The color preview exists exactly when the element has a single
    child, that child is plain text, and the text is a hex color literal;
    the color is that text. *)
Theorem colorPreview_iff (p : Props) (c : jsstring) :
  colorPreview p = Some c <->
  children p = [Text c] /\ hex_color_literal c = true.
Proof.
  unfold colorPreview. split.
  - destruct (children p) as [|[s|] [|n more]]; try discriminate; cbn.
    + rewrite andb_true_r, test_re_color.
      destruct s as [|x s]; [discriminate|]. cbn [truthy_string andb].
      destruct (hex_color_literal (x :: s)) eqn:E; [|discriminate].
      intros H. injection H as <-. now split.
    + rewrite andb_false_r. discriminate.
  - intros [-> H]. cbn. rewrite andb_true_r, test_re_color, H.
    destruct c; [discriminate|reflexivity].
Qed.

Section Dispatch.

Variable attrs : Type.
Variable JSON_parse : jsstring -> option attrs.

(** X13.  The component throws exactly when it renders none of the rich
    blocks and the blob of pass-through attributes does not parse: a
    malformed blob is harmless for the file chip, the source quote and the
    syntax block. *)
Theorem CodeRenderer_throws_iff (p : Props) :
  CodeRenderer JSON_parse p = Throws <->
  rich p = false /\ JSON_parse (propsJSON p) = None.
Proof.
  unfold CodeRenderer. fold (rich p). destruct (rich p).
  - split; [|now intros [? _]].
    destruct (is_Quoted _); [|discriminate].
    destruct (truthy (hideCode p)).
    + unfold handleChipClick, linesToUse. pose proof (lines_no_throw p) as H.
      destruct (lines p); cbn; congruence.
    + unfold startLine. pose proof (lines_no_throw p) as H.
      destruct (lines p); cbn; congruence.
  - unfold plain_code.
    destruct (JSON_parse (propsJSON p)); destruct (colorPreview p); cbn;
      split; try discriminate; try (intros [_ ?]; discriminate); now split.
Qed.

(** X14.  An inline element is never rendered as a rich block, whatever
    its class string says: it is the inline code, with the color preview
    when there is one. *)
Theorem inline_is_plain (p : Props) :
  truthy (inline p) = true ->
  rich p = false
  /\ CodeRenderer JSON_parse p
     = (c <- plain_code JSON_parse p ;;
        Val (match colorPreview p with
             | Some color => ColorSwatch color c
             | None => PlainCode c
             end)).
Proof.
  intros H. unfold CodeRenderer, rich. rewrite H. cbn [negb andb].
  split; [reflexivity|]. now destruct (colorPreview p).
Qed.

(** X15.  A rich block looks at the first child only: the children after
    it do not change what is rendered. *)
Theorem rich_block_ignores_siblings (p : Props) (t : jsstring) (more : list ReactNode) :
  children p = Text t :: more ->
  rich p = true ->
  CodeRenderer JSON_parse p = CodeRenderer JSON_parse (with_children p [Text t]).
Proof.
  intros Hch Hrich.
  assert (Hrich' : rich (with_children p [Text t]) = true).
  { unfold rich in *. rewrite Hch in Hrich. exact Hrich. }
  unfold CodeRenderer. fold (rich p). fold (rich (with_children p [Text t])).
  rewrite Hrich, Hrich'.
  unfold code. rewrite Hch. reflexivity.
Qed.

(** X16.  [hideCode] matters under the type tag [Quoted] only: with any
    other class string the flag does not change what is rendered. *)
Theorem hideCode_only_for_Quoted (p : Props) (h : option bool) :
  is_Quoted (group 1 (matchType p)) = false ->
  CodeRenderer JSON_parse (with_hideCode p h) = CodeRenderer JSON_parse p.
Proof.
  intros H. unfold CodeRenderer.
  change (matchType (with_hideCode p h)) with (matchType p).
  rewrite H. reflexivity.
Qed.

(** ** The tags *)

Lemma span_exact (q : char -> bool) (v post : jsstring) :
  forallb q v = true ->
  (forall d y, post = d :: y -> q d = false) ->
  span q (v ++ post) = (v, post).
Proof.
  intros Hv Hpost. induction v as [|c v IH]; simpl.
  - destruct post as [|d y]; [reflexivity|]. simpl. now rewrite (Hpost d y eq_refl).
  - simpl in Hv. apply andb_true_iff in Hv as [Hc Hv]. now rewrite Hc, IH.
Qed.

Lemma jsstring_eqb_eq (a b : jsstring) : jsstring_eqb a b = true <-> a = b.
Proof.
  revert b. induction a as [|x a IH]; intros [|y b]; simpl;
    try (split; [discriminate|discriminate]); [now split|].
  unfold char_eqb. rewrite andb_true_iff, N.eqb_eq, IH.
  split; [now intros [-> ->]|]. intros H. now injection H.
Qed.

(** The first tag [l<word>] of a class string and its word. *)
Lemma first_tag_word (l cls pre : jsstring) (c : char) (w post : jsstring) :
  cls = pre ++ l ++ c :: w ++ post ->
  (forall x d y, cls = x ++ l ++ d :: y -> word d = true -> length pre <= length x) ->
  forallb word (c :: w) = true ->
  (forall d y, post = d :: y -> word d = false) ->
  group 1 (exec (tag l word) cls) = Some (c :: w).
Proof.
  intros -> Hfirst Hw Hpost. apply exec_tag_first; [|exact Hfirst].
  exact (@span_exact word (c :: w) post Hw Hpost).
Qed.

(** X17.  An explicit [lang:<word>] wins over the [language-<word>]
    fallback: the decoded language is the word of the first [lang:] tag,
    whatever [language-] prefix the class string has. *)
Theorem lang_tag_wins (p : Props) (pre : jsstring) (c : char) (w post : jsstring) :
  class_string p = pre ++ js "lang:" ++ c :: w ++ post ->
  (forall x d y, class_string p = x ++ js "lang:" ++ d :: y -> word d = true ->
                 length pre <= length x) ->
  forallb word (c :: w) = true ->
  (forall d y, post = d :: y -> word d = false) ->
  or_string (group 1 (matchLang p)) [] = c :: w.
Proof.
  intros Hcls Hfirst Hw Hpost.
  pose proof (@first_tag_word (js "lang:") _ _ _ _ _ Hcls Hfirst Hw Hpost) as H.
  unfold matchLang. fold re_lang in H.
  destruct (exec re_lang (class_string p)); [|discriminate].
  now rewrite H.
Qed.

(** X18.  Only the type word [Quoted], whole and in this case, selects the
    file chip or the source quote: a block whose first type tag has any
    other word is rendered as the syntax block. *)
Theorem other_type_is_syntax_block
        (p : Props) (pre : jsstring) (c : char) (w post t : jsstring) :
  class_string p = pre ++ js "language-type:" ++ c :: w ++ post ->
  (forall x d y, class_string p = x ++ js "language-type:" ++ d :: y ->
                 word d = true -> length pre <= length x) ->
  forallb word (c :: w) = true ->
  (forall d y, post = d :: y -> word d = false) ->
  c :: w <> js "Quoted" ->
  truthy (inline p) = false ->
  nth_error (children p) 0 = Some (Text t) ->
  CodeRenderer JSON_parse p
  = Val (NewCode (code p) (or_string (group 1 (matchLang p)) [])).
Proof.
  intros Hcls Hfirst Hw Hpost Hne Hinline Hch.
  pose proof (@first_tag_word (js "language-type:") _ _ _ _ _ Hcls Hfirst Hw Hpost) as H.
  unfold CodeRenderer, matchType. fold re_type in H.
  rewrite H, Hinline, Hch. cbn [negb truthy_string orb andb is_string is_Quoted].
  destruct (jsstring_eqb (c :: w) (js "Quoted")) eqn:E; [|reflexivity].
  apply jsstring_eqb_eq in E. now elim Hne.
Qed.

(** X10.  A class string without a lines tag decodes to no bounds, and
    the source quote rendered for it has no start line: the guard
    [lines[0] ? lines[0] - 1 : null] answers [null], not [NaN]. *)
Theorem source_quote_without_lines (p : Props) (t : jsstring) :
  (forall a d b, class_string p = a ++ js "lines:" ++ d :: b -> dot d = false) ->
  is_Quoted (group 1 (matchType p)) = true ->
  truthy (hideCode p) = false ->
  truthy (inline p) = false ->
  nth_error (children p) 0 = Some (Text t) ->
  lines p = Val []
  /\ CodeRenderer JSON_parse p
     = Val (CodeWithBreadcrumbs (code p)
              (or_string (group 1 (matchLang p)) [])
              (or_string (group 1 (matchPath p)) [])
              None (repoName p)).
Proof.
  intros Hno Hquoted Hhide Hinline Hch.
  assert (Hlines : lines p = Val []).
  { unfold lines, matchLines, re_lines.
    now rewrite (@exec_tag_none (js "lines:") dot (class_string p) Hno). }
  split; [exact Hlines|].
  unfold CodeRenderer, startLine. rewrite Hlines, Hquoted, Hhide, Hinline, Hch.
  destruct (group 1 (matchType p)) as [[|c s]|]; try discriminate.
  reflexivity.
Qed.

End Dispatch.

(** ** Sample inputs of the properties *)

Import TagFacts.

Lemma lines_of_numerals_witness :
  linesToUse (Samples.code_props "lang:rust path:src/main.rs, lines:10-20" "x" None None)
  = Val (Int 9, Int 19)
  /\ startLine (Samples.code_props "language-type:Quoted lines:0" "x" None None)
     = Val None.
Proof.
  split.
  - destruct (@lines_of_numerals
                (Samples.code_props "lang:rust path:src/main.rs, lines:10-20" "x" None None)
                (js "lang:rust path:src/main.rs, ") (js "10") (Some (js "20")))
      as (_ & H & _).
    + reflexivity.
    + intros x y H. vm_compute in H. scan_from H x ltac:(simpl; lia).
    + reflexivity.
    + reflexivity.
    + intros d H. injection H as <-. split; reflexivity.
    + exact H.
  - destruct (@lines_of_numerals
                (Samples.code_props "language-type:Quoted lines:0" "x" None None)
                (js "language-type:Quoted ") (js "0") None)
      as (_ & _ & _ & H).
    + reflexivity.
    + intros x y H. vm_compute in H. scan_from H x ltac:(simpl; lia).
    + reflexivity.
    + reflexivity.
    + intros d H. discriminate H.
    + exact H.
Defined.

Lemma source_quote_without_lines_witness :
  CodeRenderer Samples.parse_empty
    (Samples.code_props "language-type:Quoted path:a.py," "x" None None)
  = Val (CodeWithBreadcrumbs (js "x") (js "type") (js "a.py") None (js "bloop")).
Proof.
  destruct (@source_quote_without_lines _ Samples.parse_empty
              (Samples.code_props "language-type:Quoted path:a.py," "x" None None)
              (js "x")) as [_ H].
  - intros a d b H. vm_compute in H. scan_from H a ltac:(fail).
  - reflexivity.
  - reflexivity.
  - reflexivity.
  - reflexivity.
  - exact H.
Defined.

Lemma code_without_final_newline_witness :
  code (Samples.code_props "lang:rust" "fn main() {}" None None) = js "fn main() {}"
  /\ code {| children := [Text (js "let x" ++ [10%N])]; repoName := []; hideCode := None;
             className := None; propsJSON := []; inline := None |} = js "let x".
Proof.
  split.
  - destruct (@code_without_final_newline
                (Samples.code_props "lang:rust" "fn main() {}" None None)
                (js "fn main() {}") eq_refl) as [_ H].
    apply H. intros t' E. apply (f_equal (@rev _)) in E.
    rewrite rev_app_distr in E. vm_compute in E. discriminate E.
  - destruct (@code_without_final_newline
                {| children := [Text (js "let x" ++ [10%N])]; repoName := [];
                   hideCode := None; className := None; propsJSON := [];
                   inline := None |}
                (js "let x" ++ [10%N]) eq_refl) as [H _].
    now apply H.
Defined.

Lemma colorPreview_iff_witness :
  colorPreview (Samples.inline_code "#a1B2c3") = Some (js "#a1B2c3").
Proof.
  apply colorPreview_iff. split; reflexivity.
Defined.

Lemma CodeRenderer_throws_iff_witness :
  CodeRenderer parse_nothing (Samples.inline_code "npm install") = Throws.
Proof.
  apply CodeRenderer_throws_iff. split; reflexivity.
Defined.

Lemma inline_is_plain_witness :
  rich {| children := [Text (js "x")]; repoName := []; hideCode := None;
          className := Some (js "language-type:Quoted path:a.py, lines:5");
          propsJSON := []; inline := Some true |} = false.
Proof.
  apply (@inline_is_plain _ Samples.parse_empty). reflexivity.
Defined.

Lemma rich_block_ignores_siblings_witness :
  CodeRenderer Samples.parse_empty
    {| children := [Text (js "x"); Node; Text (js "y")]; repoName := [];
       hideCode := None; className := Some (js "lang:rust");
       propsJSON := []; inline := None |}
  = CodeRenderer Samples.parse_empty (Samples.code_props "lang:rust" "x" None None).
Proof.
  rewrite (@rich_block_ignores_siblings _ Samples.parse_empty
             {| children := [Text (js "x"); Node; Text (js "y")]; repoName := [];
                hideCode := None; className := Some (js "lang:rust");
                propsJSON := []; inline := None |}
             (js "x") [Node; Text (js "y")] eq_refl eq_refl).
  reflexivity.
Defined.

Lemma hideCode_only_for_Quoted_witness :
  CodeRenderer Samples.parse_empty
    (with_hideCode (Samples.code_props "lang:rust" "x" None None) (Some true))
  = CodeRenderer Samples.parse_empty (Samples.code_props "lang:rust" "x" None None).
Proof.
  apply hideCode_only_for_Quoted. reflexivity.
Defined.

(** The class string of a fenced block of the assistant. *)
Lemma lang_tag_wins_witness :
  or_string
    (group 1 (matchLang
       (Samples.code_props "language-type:Quoted,lang:Rust,path:src/main.rs,lines:1-5"
                           "x" None None))) []
  = js "Rust".
Proof.
  apply (@lang_tag_wins
           (Samples.code_props "language-type:Quoted,lang:Rust,path:src/main.rs,lines:1-5"
                               "x" None None)
           (js "language-type:Quoted,") 82%N (js "ust")
           (js ",path:src/main.rs,lines:1-5")).
  - reflexivity.
  - intros x d y H _. vm_compute in H. scan_from H x ltac:(simpl; lia).
  - reflexivity.
  - intros d y H. vm_compute in H. injection H as <- _. reflexivity.
Defined.

(** A type word that only starts with [Quoted]. *)
Lemma other_type_is_syntax_block_witness :
  CodeRenderer Samples.parse_empty
    (Samples.code_props "language-type:QuotedText path:a.py, lines:5" "x" (Some true) None)
  = Val (NewCode (js "x") (js "type")).
Proof.
  rewrite (@other_type_is_syntax_block _ Samples.parse_empty
             (Samples.code_props "language-type:QuotedText path:a.py, lines:5" "x"
                                 (Some true) None)
             [] 81%N (js "uotedText") (js " path:a.py, lines:5") (js "x")).
  - reflexivity.
  - reflexivity.
  - intros x d y _ _. simpl. lia.
  - reflexivity.
  - intros d y H. vm_compute in H. injection H as <- _. reflexivity.
  - discriminate.
  - reflexivity.
  - reflexivity.
Defined.

End DecoderProperties.

(* ================================================================== *)
(** * The view with its effect dependencies: properties *)
(* ================================================================== *)

Module ViewProperties.
Import JS Conversation.

Lemma run_cons (st : View.state) (h : View.happening) (hs : list View.happening) :
  View.run st (h :: hs)
  = (fst (View.run (fst (View.step st h)) hs),
     snd (View.step st h) ++ snd (View.run (fst (View.step st h)) hs)).
Proof.
  cbn [View.run]. destruct (View.step st h) as [st1 o1]. cbn [fst snd].
  now destruct (View.run st1 hs) as [st2 o2].
Qed.

(** The flag of the view is the flag of [Conversation.run] on its scroll
    events: renders and children do not touch it. *)
Lemma flag_of_scrolls (hs : list View.happening) :
  forall st,
    View.userScrolledUp (fst (View.run st hs))
    = fst (run (View.userScrolledUp st) (flat_map View.scrolls hs)).
Proof.
  induction hs as [|h hs IH]; intros st; [reflexivity|].
  rewrite run_cons. cbn [fst]. rewrite IH.
  destruct h as [current|fresh current|current]; cbn; [|reflexivity|reflexivity].
  now destruct (run (handleScroll current (View.userScrolledUp st))
                    (flat_map View.scrolls hs)).
Qed.

(** X5.  While the user is scrolled up the effect of the view never
    scrolls: over renders, with a new transcript or not, over scroll
    events that do not observe the bottom and over calls of children,
    the flag stays raised, and the [scrollTo]s issued are exactly those
    the children ask for through [scrollToBottom], which the flag does
    not guard. *)
Theorem effect_silent_while_scrolled_up (hs : list View.happening) :
  forall st,
    View.userScrolledUp st = true ->
    Forall View.stays_up hs ->
    View.userScrolledUp (fst (View.run st hs)) = true
    /\ snd (View.run st hs) = flat_map View.requested hs.
Proof.
  induction hs as [|h hs IH]; intros st Hup Hall; [now split|].
  inversion Hall as [|? ? Hh Hhs]; subst.
  rewrite run_cons. cbn [fst snd flat_map].
  assert (Hstep : View.userScrolledUp (fst (View.step st h)) = true
                  /\ snd (View.step st h) = View.requested h).
  { destruct h as [[el|]|fresh current|current]; cbn in *.
    - split; [now apply ConversationFacts.Qltb_lt|reflexivity].
    - now split.
    - rewrite Hup. split; [reflexivity|]. unfold follow. cbn.
      now destruct (View.effect_runs st fresh).
    - now split. }
  destruct Hstep as [Hup1 Hout]. destruct (IH _ Hup1 Hhs) as [Hflag Hrest].
  split; [exact Hflag|]. now rewrite Hout, Hrest.
Qed.

(** X6.  In a view whose last render saw the flag as it is, a scroll
    event and the render after it: the effect scrolls the container to
    its [scrollHeight], smoothly, exactly when the event observed the
    bottom and either the transcript is new or the flag was raised
    before.  A render with the same transcript and an unchanged flag
    issues nothing. *)
Theorem render_after_scroll
        (st : View.state) (fresh : bool) (el el' : container) :
  View.settled st ->
  snd (View.run st [View.Scroll (Some el); View.Render fresh (Some el')])
  = let up := Qltb (scrollTop el) (inject_Z (scrollHeight el - clientHeight el)) in
    if negb up && (fresh || View.userScrolledUp st)
    then [scrollTo 0 (scrollHeight el') true] else [].
Proof.
  unfold View.settled. intros Hseen. cbn. unfold View.effect_runs. cbn.
  rewrite Hseen. unfold follow.
  destruct (Qltb (scrollTop el) (inject_Z (scrollHeight el - clientHeight el))),
    fresh, (View.userScrolledUp st); reflexivity.
Qed.

(** X8.  A view that follows keeps following and scrolls once for every
    new transcript: while no scroll event observes the container above
    the bottom, the flag stays down and the [scrollTo]s issued are those
    of the renders with a new transcript and of the calls of children;
    a render with the same transcript issues none.  The first render of
    a view scrolls whatever the transcript. *)
Theorem follows_new_transcripts (hs : list View.happening) :
  Forall View.stays_down hs ->
  (forall st,
      View.userScrolledUp st = false -> View.settled st ->
      View.userScrolledUp (fst (View.run st hs)) = false
      /\ snd (View.run st hs) = flat_map View.followed hs)
  /\
  (forall fresh current,
      snd (View.run View.mount (View.Render fresh current :: hs))
      = scrollToBottom current ++ flat_map View.followed hs).
Proof.
  intros Hall.
  assert (Hsettled : forall st,
             View.userScrolledUp st = false -> View.settled st ->
             View.userScrolledUp (fst (View.run st hs)) = false
             /\ snd (View.run st hs) = flat_map View.followed hs).
  { induction Hall as [|h hs Hh _ IH]; intros st Hdown Hseen; [now split|].
    rewrite run_cons. cbn [fst snd flat_map].
    assert (Hstep : View.userScrolledUp (fst (View.step st h)) = false
                    /\ View.settled (fst (View.step st h))
                    /\ snd (View.step st h) = View.followed h).
    { unfold View.settled in *.
      destruct h as [[el|]|fresh current|current]; cbn in *.
      - apply ConversationFacts.Qltb_ge in Hh. rewrite Hh.
        repeat split. now rewrite Hseen, Hdown.
      - now repeat split.
      - repeat split; [exact Hdown|]. unfold View.effect_runs, follow.
        rewrite Hseen, Hdown. now destruct fresh.
      - now repeat split. }
    destruct Hstep as (Hdown1 & Hseen1 & Hout).
    destruct (IH _ Hdown1 Hseen1) as [Hflag Hrest].
    split; [exact Hflag|]. now rewrite Hout, Hrest. }
  split; [exact Hsettled|].
  intros fresh current. rewrite run_cons. cbn [fst snd View.step View.mount].
  f_equal. now apply Hsettled.
Qed.

(** The user scrolled up to 120: two renders, one with a new transcript,
    and a child that asks to be scrolled to. *)
Lemma effect_silent_while_scrolled_up_witness :
  View.run {| View.userScrolledUp := true; View.seen := Some true |}
    [View.Render true (Some (Samples.scrolled 120));
     View.Scroll (Some (Samples.scrolled 100));
     View.Child (Some (Samples.scrolled 100));
     View.Render false (Some (Samples.scrolled 100))]
  = ({| View.userScrolledUp := true; View.seen := Some true |},
     [scrollTo 0 500 true]).
Proof.
  destruct (@effect_silent_while_scrolled_up
              [View.Render true (Some (Samples.scrolled 120));
               View.Scroll (Some (Samples.scrolled 100));
               View.Child (Some (Samples.scrolled 100));
               View.Render false (Some (Samples.scrolled 100))]
              {| View.userScrolledUp := true; View.seen := Some true |}
              eq_refl) as [Hflag Hout].
  - repeat constructor.
  - apply injective_projections; [|exact Hout].
    destruct (fst (View.run _ _)) as [up seen] eqn:E.
    cbn in Hflag. subst up. vm_compute in E. now injection E as <-.
Defined.

(** The user comes back to the bottom; the render that follows has the
    same transcript. *)
Lemma render_after_scroll_witness :
  snd (View.run {| View.userScrolledUp := true; View.seen := Some true |}
         [View.Scroll (Some (Samples.scrolled 300));
          View.Render false (Some (Samples.scrolled 300))])
  = [scrollTo 0 500 true]
  /\
  snd (View.run {| View.userScrolledUp := false; View.seen := Some false |}
         [View.Scroll (Some (Samples.scrolled 300));
          View.Render false (Some (Samples.scrolled 300))])
  = [].
Proof.
  split.
  - exact (@render_after_scroll
             {| View.userScrolledUp := true; View.seen := Some true |}
             false (Samples.scrolled 300) (Samples.scrolled 300) eq_refl).
  - exact (@render_after_scroll
             {| View.userScrolledUp := false; View.seen := Some false |}
             false (Samples.scrolled 300) (Samples.scrolled 300) eq_refl).
Defined.

(** A view is mounted, re-rendered, and given a new transcript. *)
Lemma follows_new_transcripts_witness :
  snd (View.run View.mount
         [View.Render false (Some (Samples.scrolled 300));
          View.Render false (Some (Samples.scrolled 300));
          View.Scroll (Some (Samples.scrolled 300));
          View.Render true (Some (Samples.scrolled 300))])
  = [scrollTo 0 500 true; scrollTo 0 500 true].
Proof.
  destruct (@follows_new_transcripts
              [View.Render false (Some (Samples.scrolled 300));
               View.Scroll (Some (Samples.scrolled 300));
               View.Render true (Some (Samples.scrolled 300))]) as [_ H].
  - repeat constructor. discriminate.
  - exact (H false (Some (Samples.scrolled 300))).
Defined.

End ViewProperties.
